(** * ILLIXR: the runtime orchestrator and the offload_data plugin

    A shallow embedding of [runtime/runtime_impl.hpp] (class [runtime_impl])
    and of the [offload_data] plugin, with the properties of their start-up,
    shutdown and teardown protocols.

    Heap objects (services, plugin instances) are represented by their
    address; the observable behaviour of a run is the sequence of calls it
    makes on collaborators ([event]).  Methods are computations in a small
    state-and-abort monad [proc] over a [world]. *)

From stdpp Require Import gmap strings pretty list fin_maps.
From Stdlib Require Import ZArith Lia Ascii Sorting.Sorted Sorting.Permutation.

Local Open Scope string_scope.
Local Open Scope list_scope.

(** ** Heap identities, plugin factories, events *)

Abbreviation addr := nat.

(** What a plugin constructor may do with the [phonebook*] it is handed:
    look a service up, or register one of its own. *)
Inductive pb_action :=
| PbLookup (cap : string)
| PbRegister (cap : string).

(** [plugin_factory]: the function pointer [plugin* (*)(phonebook*)].  It is
    identified by a name and carries the registry accesses of the
    constructor it runs. *)
Record plugin_factory := {
  pf_name : string;
  pf_ctor : list pb_action }.

Inductive event :=
| EvSetNumThreads (n : nat)
| EvRegister (cap : string) (inst : addr)
| EvDlopen (path : string)
| EvDlclose (path : string)
| EvFactory (f : string) (seen : gmap string addr) (inst : addr)
| EvStart (p : addr)
| EvSwitchboardStop (sb : addr)
| EvStop (p : addr)
| EvTerminateStore (b : bool)
| EvSleep (ms : nat)
| EvSchedule (sb : addr) (subscriber : nat) (topic : string)
| EvCerr (msg : string)
| EvFatal (why : string)
| EvAbort.

(** ** The process monad *)

(** [disk]: the shared objects present on disk, each with its exported
    factory symbols.  [next_addr]: the allocator.  [trace]: calls made so
    far, oldest first. *)
Record world := {
  disk : gmap string (gmap string plugin_factory);
  next_addr : addr;
  trace : list event }.

Inductive outcome (A : Type) :=
| Ret (a : A) (w : world)
| Died (w : world).
Arguments Ret {A} a w.
Arguments Died {A} w.

Definition proc (A : Type) : Type := world → outcome A.

Definition ret {A} (a : A) : proc A := λ w, Ret a w.

Definition bind {A B} (m : proc A) (k : A → proc B) : proc B :=
  λ w, match m w with
       | Ret a w' => k a w'
       | Died w' => Died w'
       end.

Declare Scope proc_scope.
Delimit Scope proc_scope with proc.
Notation "x <- m ;; k" := (bind m (λ x, k))
  (at level 100, m at next level, right associativity) : proc_scope.
Notation "m ;;; k" := (bind m (λ _, k))
  (at level 100, right associativity) : proc_scope.
Local Open Scope proc_scope.

(** The world after [k] further allocations and the calls [evs]. *)
Definition adv (k : nat) (evs : list event) (w : world) : world :=
  {| disk := disk w; next_addr := next_addr w + k; trace := trace w ++ evs |}.

Definition emit (e : event) : proc unit := λ w, Ret tt (adv 0 [e] w).

(** [std::make_shared] / [new]: a fresh object. *)
Definition fresh : proc addr := λ w, Ret (next_addr w) (adv 1 [] w).

(** [abort()]: the process ends here. *)
Definition abort {A} : proc A := λ w, Died (adv 0 [EvAbort] w).

Definition fatal {A} (why : string) : proc A := emit (EvFatal why) ;;; abort.

Fixpoint mapM {A B} (f : A → proc B) (l : list A) : proc (list B) :=
  match l with
  | [] => ret []
  | x :: l' => y <- f x ;; ys <- mapM f l' ;; ret (y :: ys)
  end.

Fixpoint forM_ {A} (f : A → proc unit) (l : list A) : proc unit :=
  match l with
  | [] => ret tt
  | x :: l' => f x ;;; forM_ f l'
  end.

(** ** phonebook *)

Abbreviation phonebook := (gmap string addr).

(** Modelled from the spec: [common/phonebook.hpp] is not among the
    sources.  "[register(capability, instance)] installs the implementation
    for a capability; fails fatally if the capability is already registered
    (no silent overwrite)." *)
Definition register_impl (cap : string) (inst : addr) (pb : phonebook) : proc phonebook :=
  match pb !! cap with
  | Some _ => fatal ("already registered: " +:+ cap)
  | None => emit (EvRegister cap inst) ;;; ret (<[cap := inst]> pb)
  end.

(** Modelled from the spec: [common/phonebook.hpp] is not among the
    sources.  "[lookup(capability)] returns the shared instance; fails
    fatally if absent." *)
Definition lookup_impl (cap : string) (pb : phonebook) : proc addr :=
  match pb !! cap with
  | Some inst => ret inst
  | None => fatal ("not registered: " +:+ cap)
  end.

(** ** dynamic_lib *)

Record dynamic_lib := {
  lib_path : string;
  lib_symbols : gmap string plugin_factory }.

(** Modelled from the spec: [common/dynamic_lib.hpp] is not among the
    sources.  "Given a filesystem path to a compiled module, opens it ...
    Failure to open the module or resolve the symbol is fatal." *)
Definition dynamic_lib_create (so_path : string) : proc dynamic_lib :=
  λ w, match disk w !! so_path with
       | Some syms =>
           (emit (EvDlopen so_path) ;;;
            ret {| lib_path := so_path; lib_symbols := syms |}) w
       | None => fatal ("dlopen: " +:+ so_path) w
       end.

(** Modelled from the spec: [common/dynamic_lib.hpp] is not among the
    sources; see [dynamic_lib_create]. *)
Definition dynamic_lib_get (lib : dynamic_lib) (sym : string) : proc plugin_factory :=
  match lib_symbols lib !! sym with
  | Some f => ret f
  | None => fatal ("dlsym: " +:+ sym)
  end.

(** ** Plugins as the orchestrator sees them *)

Definition run_pb_action (a : pb_action) (pb : phonebook) : proc phonebook :=
  match a with
  | PbLookup cap => lookup_impl cap pb ;;; ret pb
  | PbRegister cap => inst <- fresh ;; register_impl cap inst pb
  end.

Fixpoint run_ctor (acts : list pb_action) (pb : phonebook) : proc phonebook :=
  match acts with
  | [] => ret pb
  | a :: acts' => pb' <- run_pb_action a pb ;; run_ctor acts' pb'
  end.

(** [plugin_factory(&pb)]: allocates the plugin and runs its constructor
    against the orchestrator's registry. *)
Definition call_factory (f : plugin_factory) (pb : phonebook) : proc (addr * phonebook) :=
  p <- fresh ;;
  emit (EvFactory (pf_name f) pb p) ;;;
  pb' <- run_ctor (pf_ctor f) pb ;;
  ret (p, pb').

Definition plugin_start (p : addr) : proc unit := emit (EvStart p).
Definition plugin_stop (p : addr) : proc unit := emit (EvStop p).

(** ** runtime_impl *)

Record runtime_impl := {
  libs : list dynamic_lib;
  pb : phonebook;
  plugins : list addr;
  terminate : bool }.

(** [runtime_impl::runtime_impl(GLXContext)].  [MULTICORE] is the build
    flag of the same name. *)
Definition runtime_impl_new (MULTICORE : bool) : proc runtime_impl :=
  (if MULTICORE then ret tt else emit (EvSetNumThreads 0)) ;;;
  i1 <- fresh ;; pb1 <- register_impl "record_logger" i1 ∅ ;;
  i2 <- fresh ;; pb2 <- register_impl "gen_guid" i2 pb1 ;;
  i3 <- fresh ;; pb3 <- register_impl "switchboard" i3 pb2 ;;
  i4 <- fresh ;; pb4 <- register_impl "xlib_gl_extended_window" i4 pb3 ;;
  i5 <- fresh ;; pb5 <- register_impl "realtime_clock" i5 pb4 ;;
  ret {| libs := []; pb := pb5; plugins := []; terminate := false |}.

(** The third [std::transform] of the vector overload: one instance per
    factory, in order, each constructed against the registry as the
    previous constructors left it. *)
Fixpoint make_plugins (fs : list plugin_factory) (pb : phonebook)
  : proc (list addr * phonebook) :=
  match fs with
  | [] => ret ([], pb)
  | f :: fs' =>
      r <- call_factory f pb ;;
      rs <- make_plugins fs' r.2 ;;
      ret (r.1 :: rs.1, rs.2)
  end.

(** [load_so(const std::vector<std::string>&)]. *)
Definition load_so_vec (so_paths : list string) (this : runtime_impl) : proc runtime_impl :=
  new_libs <- mapM dynamic_lib_create so_paths ;;
  let libs' := libs this ++ new_libs in
  plugin_factories <- mapM (λ lib, dynamic_lib_get lib "this_plugin_factory") libs' ;;
  r <- make_plugins plugin_factories (pb this) ;;
  let plugins' := plugins this ++ r.1 in
  forM_ plugin_start plugins' ;;;
  ret {| libs := libs'; pb := r.2; plugins := plugins'; terminate := terminate this |}.

(** [load_plugin_factory(plugin_factory)]. *)
Definition load_plugin_factory (plugin_main : plugin_factory) (this : runtime_impl)
  : proc runtime_impl :=
  r <- call_factory plugin_main (pb this) ;;
  let plugins' := plugins this ++ [r.1] in
  match last plugins' with
  | Some back => plugin_start back
  | None => abort
  end ;;;
  ret {| libs := libs this; pb := r.2; plugins := plugins'; terminate := terminate this |}.

(** [load_so(const std::string_view)]. *)
Definition load_so (so : string) (this : runtime_impl) : proc runtime_impl :=
  lib <- dynamic_lib_create so ;;
  this_plugin_factory <- dynamic_lib_get lib "this_plugin_factory" ;;
  this' <- load_plugin_factory this_plugin_factory this ;;
  ret {| libs := libs this' ++ [lib]; pb := pb this';
         plugins := plugins this'; terminate := terminate this' |}.

(** [stop()]. *)
Definition stop (this : runtime_impl) : proc runtime_impl :=
  sb <- lookup_impl "switchboard" (pb this) ;;
  emit (EvSwitchboardStop sb) ;;;
  forM_ plugin_stop (plugins this) ;;;
  emit (EvTerminateStore true) ;;;
  ret {| libs := libs this; pb := pb this; plugins := plugins this; terminate := true |}.

(** One iteration of the loop of [wait()]: [true] when the loop exits. *)
Definition wait_poll (this : runtime_impl) : proc bool :=
  if negb (terminate this) then emit (EvSleep 10) ;;; ret false else ret true.

(** [~runtime_impl()]. *)
Definition runtime_impl_delete (this : runtime_impl) : proc unit :=
  if negb (terminate this) then
    emit (EvCerr "You didn't call stop() before destructing this plugin.") ;;; abort
  else ret tt.

(** ** Runs of the orchestrator *)

(** The control surface a host drives after construction. *)
Inductive op :=
| OpLoadSoVec (so_paths : list string)
| OpLoadSo (so : string)
| OpLoadPluginFactory (plugin_main : plugin_factory)
| OpStop.

Definition do_op (o : op) (this : runtime_impl) : proc runtime_impl :=
  match o with
  | OpLoadSoVec so_paths => load_so_vec so_paths this
  | OpLoadSo so => load_so so this
  | OpLoadPluginFactory plugin_main => load_plugin_factory plugin_main this
  | OpStop => stop this
  end.

Fixpoint run_ops (ops : list op) (this : runtime_impl) : proc runtime_impl :=
  match ops with
  | [] => ret this
  | o :: ops' => this' <- do_op o this ;; run_ops ops' this'
  end.

Definition init_world (d : gmap string (gmap string plugin_factory)) : world :=
  {| disk := d; next_addr := 0; trace := [] |}.

(** Construction followed by a sequence of operations. *)
Definition boot (MULTICORE : bool) (ops : list op) : proc runtime_impl :=
  this <- runtime_impl_new MULTICORE ;; run_ops ops this.

(** A thread blocked in [wait()] next to the thread that drives the
    orchestrator: a schedule interleaves iterations of the polling loop
    with operations.  [terminate] is a [std::atomic<bool>] written by the
    last statement of [stop()] only, so an operation is one step for the
    waiter. *)
Inductive action :=
| Act (o : op)
| Poll.

Inductive waiter :=
| Waiting (slept_ms : nat)
| Returned (slept_ms : nat).

Fixpoint run_sched (s : list action) (wt : waiter) (this : runtime_impl)
  : proc (waiter * runtime_impl) :=
  match s with
  | [] => ret (wt, this)
  | Act o :: s' => this' <- do_op o this ;; run_sched s' wt this'
  | Poll :: s' =>
      match wt with
      | Returned _ => run_sched s' wt this
      | Waiting ms =>
          exited <- wait_poll this ;;
          run_sched s' (if exited : bool then Returned ms else Waiting (ms + 10)) this
      end
  end.

Definition final_world {A} (o : outcome A) : world :=
  match o with
  | Ret _ w => w
  | Died w => w
  end.



(** [wait()], run for at most [fuel] iterations of its loop: [true] when
    the loop was left, [false] when it is still spinning. *)
Fixpoint wait (fuel : nat) (this : runtime_impl) : proc bool :=
  match fuel with
  | 0 => ret false
  | S fuel' =>
      exited <- wait_poll this ;;
      if exited : bool then ret true else wait fuel' this
  end.

(** A waiter that entered [wait()] on a freshly constructed orchestrator. *)
Definition boot_sched (MULTICORE : bool) (s : list action) : proc (waiter * runtime_impl) :=
  this <- runtime_impl_new MULTICORE ;; run_sched s (Waiting 0) this.

Fixpoint polls (s : list action) : nat :=
  match s with
  | [] => 0
  | Poll :: s' => S (polls s')
  | Act _ :: s' => polls s'
  end.

(** ** Observations on traces *)

(** Plugin instances built by factory calls, in order of construction. *)
Fixpoint created (tr : list event) : list addr :=
  match tr with
  | [] => []
  | EvFactory _ _ p :: tr' => p :: created tr'
  | _ :: tr' => created tr'
  end.

(** Instances on which [start()] was called, one entry per call. *)
Fixpoint started (tr : list event) : list addr :=
  match tr with
  | [] => []
  | EvStart p :: tr' => p :: started tr'
  | _ :: tr' => started tr'
  end.

(** Paths of the modules opened, in order of opening. *)
Fixpoint dlopened (tr : list event) : list string :=
  match tr with
  | [] => []
  | EvDlopen path :: tr' => path :: dlopened tr'
  | _ :: tr' => dlopened tr'
  end.

(** Number of calls of [start()] on instance [p]. *)
Definition start_count (p : addr) (tr : list event) : nat :=
  length (filter (λ q, q = p) (started tr)).

(** The capabilities the constructor of [runtime_impl] registers. *)
Definition builtins : list string :=
  ["record_logger"; "gen_guid"; "switchboard"; "xlib_gl_extended_window"; "realtime_clock"].

Definition has_builtins (pb : phonebook) : Prop :=
  ∀ cap, cap ∈ builtins → is_Some (pb !! cap).

(** A factory call in [e], if any, was handed a registry that extends [pb0]. *)
Definition sees (pb0 : phonebook) (e : event) : Prop :=
  match e with
  | EvFactory _ seen _ => pb0 ⊆ seen
  | _ => True
  end.

Definition nofactory (e : event) : Prop :=
  match e with
  | EvFactory _ _ _ => False
  | _ => True
  end.

(** Events a plugin constructor or a failing lookup can cause. *)
Definition quiet (e : event) : Prop :=
  match e with
  | EvRegister _ _ | EvFatal _ | EvAbort => True
  | _ => False
  end.

Definition is_stop (o : op) : bool :=
  match o with
  | OpStop => true
  | _ => false
  end.

Definition is_vec (o : op) : bool :=
  match o with
  | OpLoadSoVec _ => true
  | _ => false
  end.

Fixpoint ops_of (s : list action) : list op :=
  match s with
  | [] => []
  | Act o :: s' => o :: ops_of s'
  | Poll :: s' => ops_of s'
  end.

(** The registry the constructor leaves behind (addresses are handed out
    from [0] in a fresh process). *)
Definition pb_builtin : phonebook :=
  <["realtime_clock" := 4]> (<["xlib_gl_extended_window" := 3]>
    (<["switchboard" := 2]> (<["gen_guid" := 1]> (<["record_logger" := 0]> ∅)))).

Definition ctor_events (MULTICORE : bool) : list event :=
  (if MULTICORE then [] else [EvSetNumThreads 0]) ++
  [EvRegister "record_logger" 0; EvRegister "gen_guid" 1; EvRegister "switchboard" 2;
   EvRegister "xlib_gl_extended_window" 3; EvRegister "realtime_clock" 4].

(** What an operation (or a run of operations) that returns has done:
    [this] became [this'] and the world [w] became [w']. *)
Definition op_post (this this' : runtime_impl) (w w' : world) : Prop :=
  pb this ⊆ pb this' ∧
  ∃ k evs, w' = adv k evs w ∧
    Forall (sees (pb this)) evs ∧
    plugins this' = plugins this ++ created evs ∧
    libs this `prefix_of` libs this' ∧
    lib_path <$> libs this' = (lib_path <$> libs this) ++ dlopened evs.

(** Every instance built so far was started once, and addresses below the
    allocator are the only ones in use. *)
Definition started_once (this : runtime_impl) (w : world) : Prop :=
  plugins this = created (trace w) ∧
  started (trace w) = created (trace w) ∧
  Forall (λ p, p < next_addr w) (created (trace w)) ∧
  NoDup (created (trace w)).

(** ** Closing module handles *)

(** [e] is not a [dlclose]. *)
Definition noclose (e : event) : Prop :=
  match e with
  | EvDlclose _ => False
  | _ => True
  end.

(** A computation that closes no module handle, however it ends. *)
Definition closes_nothing {A} (m : proc A) : Prop :=
  ∀ w, Forall noclose (trace w) → Forall noclose (trace (final_world (m w))).

(** The whole life of an orchestrator: construction, any interleaving of
    operations and polls of [wait()], and the body of the destructor. *)
Definition orchestrator_life (MULTICORE : bool) (s : list action) : proc unit :=
  r <- boot_sched MULTICORE s ;; runtime_impl_delete r.2.

(** ** Sample modules *)

Definition factory_A : plugin_factory :=
  {| pf_name := "A"; pf_ctor := [PbLookup "switchboard"] |}.

Definition factory_B : plugin_factory :=
  {| pf_name := "B"; pf_ctor := [PbLookup "realtime_clock"; PbRegister "pose_prediction"] |}.

Definition sample_disk : gmap string (gmap string plugin_factory) :=
  <["a.so" := {["this_plugin_factory" := factory_A]}]>
    (<["b.so" := {["this_plugin_factory" := factory_B]}]> ∅).

Definition dead : runtime_impl :=
  {| libs := []; pb := ∅; plugins := []; terminate := false |}.

(** The state and world a computation returns, for use in examples. *)
Definition returned (o : outcome runtime_impl) : runtime_impl * world :=
  match o with
  | Ret this w => (this, w)
  | Died w => (dead, w)
  end.

Definition returned_sched (o : outcome (waiter * runtime_impl))
  : waiter * runtime_impl * world :=
  match o with
  | Ret r w => (r, w)
  | Died w => ((Waiting 0, dead), w)
  end.

Definition sample_ops_1 : list op := [OpLoadSo "a.so"; OpLoadPluginFactory factory_B].

Definition sample_run_1 : runtime_impl * world :=
  Eval vm_compute in returned (boot false sample_ops_1 (init_world sample_disk)).

Definition sample_ops_2 : list op := [OpLoadSo "a.so"; OpStop].

Definition sample_run_2 : runtime_impl * world :=
  Eval vm_compute in returned (boot false sample_ops_2 (init_world sample_disk)).

Definition sample_sched_1 : list action :=
  [Poll; Act (OpLoadSo "a.so"); Poll; Act OpStop; Poll; Poll].

Definition sample_run_3 : waiter * runtime_impl * world :=
  Eval vm_compute in returned_sched (boot_sched false sample_sched_1 (init_world sample_disk)).

Definition sample_sched_2 : list action := [Act (OpLoadSo "a.so"); Poll].

Definition sample_sched_3 : list action :=
  [Act (OpLoadSoVec ["b.so"; "a.so"]); Act OpStop; Poll].

Definition sample_run_4 : waiter * runtime_impl * world :=
  Eval vm_compute in returned_sched (boot_sched false sample_sched_2 (init_world sample_disk)).

Definition sample_run_5 : waiter * runtime_impl * world :=
  Eval vm_compute in
    returned_sched (run_sched sample_sched_3 sample_run_4.1.1 sample_run_4.1.2 sample_run_4.2).

(** * The offload_data plugin *)

(** ** Values and output *)

Definition long := Z.
Definition size_t := Z.

(** Arithmetic on [double] is kept symbolic: the expression the code
    evaluates, not its IEEE value. *)
Inductive dexpr :=
| DZero
| DBits (bits : Z)
| DOfLong (z : long)
| DOfSize (n : size_t)
| DAdd (a b : dexpr)
| DSub (a b : dexpr)
| DMul (a b : dexpr)
| DDiv (a b : dexpr)
| DSqrt (a : dexpr).

(** What is sent to a stream with [<<]. *)
Inductive tok :=
| TStr (s : string)
| TLong (z : long)
| TSize (n : size_t)
| TDouble (d : dexpr)
| TFill (n : Z) (c : string)
| TEndl.

Record quaternion := { qw : dexpr; qx : dexpr; qy : dexpr; qz : dexpr }.

(** [texture_pose] ([common/data_format.hpp], not among the sources): the
    members the plugin reads.  [offload_duration] is kept as the count of
    milliseconds the [duration_cast] yields, [pose_time] as the count of
    its [time_since_epoch()], [image] as the identity of the pixel buffer. *)
Record texture_pose := {
  offload_duration : long;
  image : addr;
  pose_time : Z;
  position : list dexpr;
  latest_quaternion : quaternion;
  render_quaternion : quaternion }.

Inductive file_content :=
| FPng (width height comp : Z) (pixels : addr)
| FText (toks : list tok).

Inductive effect :=
| FlipVerticallyOnWrite (b : bool)
| Cout (toks : list tok)
| RemoveAll (p : string)
| CreateDirectories (p : string)
| WriteFile (name : string) (c : file_content)
| Report (msg : string).

(** How an operation of the plugin ends. *)
Inductive op_result (A : Type) :=
| Finished (a : A)
| OperationAborted
| Undefined.
Arguments Finished {A} a.
Arguments OperationAborted {A}.
Arguments Undefined {A}.

Definition plug (A : Type) : Type := list effect * op_result A.

Definition pret {A} (a : A) : plug A := ([], Finished a).

Definition pbind {A B} (m : plug A) (k : A → plug B) : plug B :=
  match m with
  | (effs, Finished a) => let r := k a in (effs ++ r.1, r.2)
  | (effs, OperationAborted) => (effs, OperationAborted)
  | (effs, Undefined) => (effs, Undefined)
  end.

Definition tell (effs : list effect) : plug unit := (effs, Finished tt).

Declare Scope plug_scope.
Delimit Scope plug_scope with plug.
Notation "x <-- m ;; k" := (pbind m (λ x, k))
  (at level 100, m at next level, right associativity) : plug_scope.
Notation "m ;;;; k" := (pbind m (λ _, k))
  (at level 100, right associativity) : plug_scope.

(** What the plugin takes from its surroundings: helpers and constants of
    headers that are not among the sources ([getenv_or], [str_to_bool],
    [FB_WIDTH], [FB_HEIGHT], the macro [RAC_ERRNO_MSG]), the build flag
    [NDEBUG], and the answers of the libraries it calls (whether
    [stbi_write_png] succeeds, whether an [std::ofstream] opens). *)
Record offload_env := {
  getenv_or : string → string → string;
  str_to_bool : string → bool;
  FB_WIDTH : Z;
  FB_HEIGHT : Z;
  RAC_ERRNO_MSG : string → list effect;
  NDEBUG : bool;
  stbi_write_png : string → addr → bool;
  is_open : string → bool }.

(** Modelled from the spec: [ILLIXR::abort] ([common/error_util.hpp]) is
    not among the sources.  "An image-encode failure is reported and aborts
    that Plugin's operation, not the whole process." *)
Definition ILLIXR_abort {A} (msg : string) : plug A := ([Report msg], OperationAborted).

(** ** The plugin object *)

Record offload_data := {
  name : string;
  id : nat;
  sb : addr;
  _time_seq : list long;
  _offload_data_container : list texture_pose;
  percent : Z;
  img_idx : Z;
  enable_offload : bool;
  is_success : bool;
  obj_dir : string }.

Definition set_time_seq (v : list long) (this : offload_data) : offload_data :=
  {| name := name this; id := id this; sb := sb this; _time_seq := v;
     _offload_data_container := _offload_data_container this;
     percent := percent this; img_idx := img_idx this;
     enable_offload := enable_offload this; is_success := is_success this;
     obj_dir := obj_dir this |}.

Definition set_container (v : list texture_pose) (this : offload_data) : offload_data :=
  {| name := name this; id := id this; sb := sb this; _time_seq := _time_seq this;
     _offload_data_container := v;
     percent := percent this; img_idx := img_idx this;
     enable_offload := enable_offload this; is_success := is_success this;
     obj_dir := obj_dir this |}.

Definition set_percent (v : Z) (this : offload_data) : offload_data :=
  {| name := name this; id := id this; sb := sb this; _time_seq := _time_seq this;
     _offload_data_container := _offload_data_container this;
     percent := v; img_idx := img_idx this;
     enable_offload := enable_offload this; is_success := is_success this;
     obj_dir := obj_dir this |}.

Definition set_img_idx (v : Z) (this : offload_data) : offload_data :=
  {| name := name this; id := id this; sb := sb this; _time_seq := _time_seq this;
     _offload_data_container := _offload_data_container this;
     percent := percent this; img_idx := v;
     enable_offload := enable_offload this; is_success := is_success this;
     obj_dir := obj_dir this |}.

Definition set_is_success (v : bool) (this : offload_data) : offload_data :=
  {| name := name this; id := id this; sb := sb this; _time_seq := _time_seq this;
     _offload_data_container := _offload_data_container this;
     percent := percent this; img_idx := img_idx this;
     enable_offload := enable_offload this; is_success := v;
     obj_dir := obj_dir this |}.

(** [offload_data::offload_data(std::string, phonebook* )].  [id_] is the
    identifier the base class [plugin] gives the instance. *)
Definition offload_data_new (env : offload_env) (name_ : string) (id_ : nat)
    (pb_ : phonebook) : proc offload_data :=
  sb_ <- lookup_impl "switchboard" pb_ ;;
  emit (EvSchedule sb_ id_ "texture_pose") ;;;
  ret {| name := name_; id := id_; sb := sb_;
         _time_seq := []; _offload_data_container := [];
         percent := 0; img_idx := 0;
         enable_offload := str_to_bool env (getenv_or env "ILLIXR_OFFLOAD_ENABLE" "False");
         is_success := true;
         obj_dir := getenv_or env "ILLIXR_OFFLOAD_PATH" "metrics/offloaded_data/" |}.

(** [callback]: the subscriber of topic ["texture_pose"]. *)
Definition callback (env : offload_env) (datum : texture_pose) (this : offload_data)
  : plug offload_data :=
  let this1 :=
    if NDEBUG env then pret this
    else (tell [Cout [TStr "Image index: "; TLong (img_idx this); TEndl]] ;;;;
          pret (set_img_idx (img_idx this + 1)%Z this))%plug in
  (this1 <-- this1 ;;
   let this2 := set_container (_offload_data_container this1 ++ [datum]) this1 in
   tell (RAC_ERRNO_MSG env "offloaded_data") ;;;;
   pret this2)%plug.

(** ** writeMetadata *)

Definition two64 : Z := (2 ^ 64)%Z.

(** [(int) x] for a [long] [x]. *)
Definition to_int (x : long) : Z := ((x + 2 ^ 31) mod 2 ^ 32 - 2 ^ 31)%Z.

(** [std::accumulate(first, last, 0.0)]. *)
Definition accumulate (l : list long) : dexpr :=
  fold_left (λ acc x, DAdd acc (DOfLong x)) l DZero.

(** The divisor of the mean: [_time_seq.size()]. *)
Definition mean_divisor (l : list long) : size_t := Z.of_nat (length l).

(** The divisor under the root: [_time_seq.size() - 1], in [size_t]. *)
Definition stdev_divisor (l : list long) : size_t := ((Z.of_nat (length l) - 1) mod two64)%Z.

Definition mean_of (l : list long) : dexpr := DDiv (accumulate l) (DOfSize (mean_divisor l)).

Definition accum_of (l : list long) : dexpr :=
  fold_left (λ accum d,
    DAdd accum (DMul (DSub (DOfLong d) (mean_of l)) (DSub (DOfLong d) (mean_of l)))) l DZero.

Definition stdev_of (l : list long) : dexpr :=
  DSqrt (DDiv (accum_of l) (DOfSize (stdev_divisor l))).

(** [std::max_element]: position of the first greatest element; for an
    empty range the end iterator, position [0 = size]. *)
Fixpoint max_element_go (l : list long) (i : nat) (best : nat) (bestv : long) : nat :=
  match l with
  | [] => best
  | x :: l' => if (bestv <? x)%Z then max_element_go l' (S i) i x
               else max_element_go l' (S i) best bestv
  end.

Definition max_element (l : list long) : nat :=
  match l with
  | [] => 0
  | x :: l' => max_element_go l' 1 0 x
  end.

(** [std::min_element]: position of the first least element. *)
Fixpoint min_element_go (l : list long) (i : nat) (best : nat) (bestv : long) : nat :=
  match l with
  | [] => best
  | x :: l' => if (x <? bestv)%Z then min_element_go l' (S i) i x
               else min_element_go l' (S i) best bestv
  end.

Definition min_element (l : list long) : nat :=
  match l with
  | [] => 0
  | x :: l' => min_element_go l' 1 0 x
  end.

(** The comparison handed to [std::sort]: [[](int x, int y) { return x > y; }]. *)
Definition int_gt (x y : long) : bool := (to_int y <? to_int x)%Z.

(** [std::sort] with a comparison, as an insertion sort.  [std::sort] does
    not fix the order of elements the comparison takes for equivalent. *)
Fixpoint sort_insert (comp : long → long → bool) (x : long) (l : list long) : list long :=
  match l with
  | [] => [x]
  | y :: l' => if comp y x then y :: sort_insert comp x l' else x :: l
  end.

Fixpoint sort (comp : long → long → bool) (l : list long) : list long :=
  match l with
  | [] => []
  | x :: l' => sort_insert comp x (sort comp l')
  end.

Definition times_toks (l : list long) : list tok :=
  flat_map (λ it, [TLong it; TStr " "]) l.

Definition metadata_toks (l : list long) (max min : long) : list tok :=
  [TStr "mean: "; TDouble (mean_of l); TEndl;
   TStr "max: "; TLong max; TEndl;
   TStr "min: "; TLong min; TEndl;
   TStr "stdev: "; TDouble (stdev_of l); TEndl;
   TStr "total number: "; TSize (Z.of_nat (length l)); TEndl;
   TStr "raw time: "; TEndl] ++
  times_toks l ++
  [TEndl; TEndl; TEndl; TStr "ordered time: "; TEndl] ++
  times_toks (sort int_gt l).

(** What has gone to the stream when [*max] is evaluated: the mean line
    and the label of the max line. *)
Definition metadata_before_max (l : list long) : list tok :=
  [TStr "mean: "; TDouble (mean_of l); TEndl; TStr "max: "].

(** [writeMetadata(std::vector<long>)].  Dereferencing the iterators [max]
    and [min] is a read at their position; when that position is the end
    of the sequence the read is out of bounds, after the file was opened
    and the mean line written. *)
Definition writeMetadata (env : offload_env) (dir : string) (seq : list long) : plug unit :=
  let max := max_element seq in
  let min := min_element seq in
  if is_open env (dir +:+ "metadata.out") then
    match seq !! max, seq !! min with
    | Some vmax, Some vmin =>
        tell [WriteFile (dir +:+ "metadata.out") (FText (metadata_toks seq vmax vmin))]
    | _, _ =>
        ([WriteFile (dir +:+ "metadata.out") (FText (metadata_before_max seq))], Undefined)
    end
  else pret tt.

(** ** writeDataToDisk *)

Definition quaternion_toks (q : quaternion) : list tok :=
  [TDouble (qw q); TStr " "; TDouble (qx q); TStr " "; TDouble (qy q); TStr " "; TDouble (qz q)].

Definition pose_toks (it : texture_pose) : list tok :=
  [TStr "strTime: "; TLong (pose_time it); TEndl; TStr "pos: "] ++
  flat_map (λ c, [TDouble c; TStr " "]) (position it) ++
  [TEndl; TStr "latest_pose_orientation: "] ++
  quaternion_toks (latest_quaternion it) ++
  [TEndl; TStr "render_pose_orientation: "] ++
  quaternion_toks (render_quaternion it).

Definition image_file (dir : string) (idx : Z) : string := dir +:+ pretty idx +:+ ".png".
Definition pose_file (dir : string) (idx : Z) : string := dir +:+ pretty idx +:+ ".txt".

(** The body of the loop of [writeDataToDisk], for one element of a
    container of [n] elements. *)
Definition write_one (env : offload_env) (n : size_t) (this : offload_data)
    (container_it : texture_pose) : plug offload_data :=
  (let this := set_time_seq (_time_seq this ++ [offload_duration container_it]) this in
   let image_name := image_file (obj_dir this) (img_idx this) in
   let pose_name := pose_file (obj_dir this) (img_idx this) in
   let this := set_is_success (stbi_write_png env image_name (image container_it)) this in
   (if negb (is_success this) then ILLIXR_abort "Image create failed !!! "
    else tell [WriteFile image_name
                 (FPng (FB_WIDTH env) (FB_HEIGHT env) 3 (image container_it))]) ;;;;
   tell (if is_open env pose_name
         then [WriteFile pose_name (FText (pose_toks container_it))] else []) ;;;;
   let this := set_percent (100 * (img_idx this + 1) / n)%Z this in
   tell [Cout [TStr (String "013"%char ""); TStr "["; TFill (percent this / 2)%Z "=";
               TFill (100 / 2 - percent this / 2)%Z " "; TStr "] ";
               TLong (percent this); TStr "%"; TStr " [Image "; TLong (img_idx this);
               TStr " of "; TSize n; TStr "]"]] ;;;;
   pret (set_img_idx (img_idx this + 1)%Z this))%plug.

Fixpoint write_all (env : offload_env) (n : size_t) (this : offload_data)
    (container : list texture_pose) : plug offload_data :=
  match container with
  | [] => pret this
  | container_it :: rest =>
      (this' <-- write_one env n this container_it ;; write_all env n this' rest)%plug
  end.

(** [writeDataToDisk(std::vector<switchboard::ptr<const texture_pose>>)]. *)
Definition writeDataToDisk (env : offload_env) (this : offload_data)
    (container : list texture_pose) : plug offload_data :=
  (tell [FlipVerticallyOnWrite true;
         Cout [TStr "Writing offloaded images to disk ... "; TEndl]] ;;;;
   let this := set_img_idx 0 this in
   this <-- write_all env (Z.of_nat (length container)) this container ;;
   tell [Cout [TEndl]] ;;;;
   writeMetadata env (obj_dir this) (_time_seq this) ;;;;
   pret this)%plug.

(** [offload_data::~offload_data()]. *)
Definition offload_data_delete (env : offload_env) (this : offload_data) : plug offload_data :=
  if enable_offload this then
    (tell [RemoveAll (obj_dir this); CreateDirectories (obj_dir this)] ;;;;
     writeDataToDisk env this (_offload_data_container this))%plug
  else pret this.

(** Events delivered to the plugin, oldest first. *)
Fixpoint deliver (env : offload_env) (events : list texture_pose) (this : offload_data)
  : plug offload_data :=
  match events with
  | [] => pret this
  | datum :: rest => (this' <-- callback env datum this ;; deliver env rest this')%plug
  end.

(** ** Ranges and sample data *)

Definition in_int (x : long) : Prop := (- 2 ^ 31 ≤ x < 2 ^ 31)%Z.

Definition sample_env (png_ok : string → bool) : offload_env :=
  {| getenv_or := λ _ default, default;
     str_to_bool := λ s, String.eqb s "True";
     FB_WIDTH := 2560; FB_HEIGHT := 1440;
     RAC_ERRNO_MSG := λ _, [];
     NDEBUG := true;
     stbi_write_png := λ file _, png_ok file;
     is_open := λ _, true |}.

Definition sample_quaternion : quaternion :=
  {| qw := DBits 1; qx := DZero; qy := DZero; qz := DZero |}.

Definition sample_pose (ms : long) (img : addr) : texture_pose :=
  {| offload_duration := ms; image := img; pose_time := 1000;
     position := [DZero; DZero; DZero];
     latest_quaternion := sample_quaternion; render_quaternion := sample_quaternion |}.

Definition sample_plugin (enable : bool) (received : list texture_pose) : offload_data :=
  {| name := "offload_data"; id := 1; sb := 2; _time_seq := [];
     _offload_data_container := received; percent := 0; img_idx := 0;
     enable_offload := enable; is_success := true; obj_dir := "out/" |}.

(** ** Observations on the effects of the plugin *)

(** The line [writeDataToDisk] prints after an image: a bar of width 50. *)
Definition progress_toks (percent idx : Z) (n : size_t) : list tok :=
  [TStr (String "013"%char ""); TStr "["; TFill (percent / 2)%Z "=";
   TFill (100 / 2 - percent / 2)%Z " "; TStr "] ";
   TLong percent; TStr "%"; TStr " [Image "; TLong idx;
   TStr " of "; TSize n; TStr "]"].

(** The images handed to [stbi_write_png] that were written, with their
    file names, in order. *)
Fixpoint png_writes (effs : list effect) : list (string * addr) :=
  match effs with
  | [] => []
  | WriteFile file (FPng _ _ _ pixels) :: effs' => (file, pixels) :: png_writes effs'
  | _ :: effs' => png_writes effs'
  end.

(** The file names [image_file dir k], [image_file dir (k + 1)], ... paired
    with the pixel buffers of [container]. *)
Fixpoint numbered_images (dir : string) (k : Z) (container : list texture_pose)
  : list (string * addr) :=
  match container with
  | [] => []
  | it :: rest => (image_file dir k, image it) :: numbered_images dir (k + 1)%Z rest
  end.

(** Every bar drawn by [effs] has a length between 0 and 50. *)
Definition bars_bounded (effs : list effect) : Prop :=
  ∀ toks k c, Cout toks ∈ effs → TFill k c ∈ toks → (0 ≤ k ≤ 50)%Z.

(** The order of descending truncated values, which is what the
    comparison handed to [std::sort] sees. *)
Definition int_ge (a b : long) : Prop := (to_int b ≤ to_int a)%Z.

(** A plugin is constructed, receives [events], and is destroyed. *)
Definition lifetime (env : offload_env) (events : list texture_pose) (this : offload_data)
  : plug offload_data :=
  (this' <-- deliver env events this ;; offload_data_delete env this')%plug.

(** ** Observations on the calls of the orchestrator *)

(** Instances on which [stop()] was called, one entry per call. *)
Fixpoint stopped (tr : list event) : list addr :=
  match tr with
  | [] => []
  | EvStop p :: tr' => p :: stopped tr'
  | _ :: tr' => stopped tr'
  end.

(** Names of the factories invoked, in order. *)
Fixpoint factories_called (tr : list event) : list string :=
  match tr with
  | [] => []
  | EvFactory f _ _ :: tr' => f :: factories_called tr'
  | _ :: tr' => factories_called tr'
  end.

Definition nostart (e : event) : Prop :=
  match e with
  | EvStart _ => False
  | _ => True
  end.

(** Every address in use is below the allocator, and [stop()] has only
    been called on instances the orchestrator holds. *)
Definition addrs_ok (this : runtime_impl) (w : world) : Prop :=
  Forall (λ p, p < next_addr w) (plugins this) ∧
  Forall (λ p, p ∈ plugins this) (stopped (trace w)).

Definition is_dir_op (e : effect) : bool :=
  match e with
  | RemoveAll _ | CreateDirectories _ => true
  | _ => false
  end.

Definition pose_effects (env : offload_env) (dir : string) (idx : Z) (it : texture_pose)
  : list effect :=
  if is_open env (pose_file dir idx)
  then [WriteFile (pose_file dir idx) (FText (pose_toks it))] else [].

(** What [writeDataToDisk] prints and sets before its loop. *)
Definition disk_prologue : list effect :=
  [FlipVerticallyOnWrite true; Cout [TStr "Writing offloaded images to disk ... "; TEndl]].

(** No [start()] and no [stop()] among the calls [evs]. *)
Definition silent (evs : list event) : Prop := started evs = [] ∧ stopped evs = [].

(** ** Further sample runs *)

Definition sample_dead : world :=
  Eval vm_compute in
    final_world (do_op (OpLoadSoVec ["a.so"; "missing.so"]) sample_run_1.1 sample_run_1.2).

Definition sample_run_vec : runtime_impl * world :=
  Eval vm_compute in returned (load_so_vec ["b.so"] sample_run_4.1.2 sample_run_4.2).

Definition sample_ops_late : list op := [OpLoadPluginFactory factory_B].

Definition sample_run_late : runtime_impl * world :=
  Eval vm_compute in
    returned (boot false (sample_ops_2 ++ OpStop :: sample_ops_late) (init_world sample_disk)).

(** What [writeMetadata] sends to the file before the ordered times. *)
Definition metadata_head (l : list long) (max min : long) : list tok :=
  [TStr "mean: "; TDouble (mean_of l); TEndl;
   TStr "max: "; TLong max; TEndl;
   TStr "min: "; TLong min; TEndl;
   TStr "stdev: "; TDouble (stdev_of l); TEndl;
   TStr "total number: "; TSize (Z.of_nat (length l)); TEndl;
   TStr "raw time: "; TEndl] ++
  times_toks l ++
  [TEndl; TEndl; TEndl; TStr "ordered time: "; TEndl].

(** A file written by [e], if any, has a name that starts with [dir]. *)
Definition writes_under (dir : string) (e : effect) : Prop :=
  match e with
  | WriteFile file _ => String.prefix dir file = true
  | _ => True
  end.

Definition sample_env_debug : offload_env :=
  {| getenv_or := λ _ default, default;
     str_to_bool := λ s, String.eqb s "True";
     FB_WIDTH := 2560; FB_HEIGHT := 1440;
     RAC_ERRNO_MSG := λ _, [];
     NDEBUG := false;
     stbi_write_png := λ _ _, true;
     is_open := λ _, true |}.

(** A file written by [e], if any, is the image or the pose of an index
    [idx + j] with [j < i]. *)
Definition writes_before (dir : string) (idx : Z) (i : nat) (e : effect) : Prop :=
  match e with
  | WriteFile file _ =>
      ∃ j, j < i ∧ (file = image_file dir (idx + Z.of_nat j) ∨
                    file = pose_file dir (idx + Z.of_nat j))
  | Report _ => False
  | _ => True
  end.

Definition sample_png_ok (file : string) : bool := negb (String.eqb file "out/1.png").

Definition sample_received : list texture_pose :=
  [sample_pose 5%Z 7; sample_pose 3%Z 8; sample_pose 4%Z 9].
(** * Reasoning about [proc] *)

Lemma adv_0_nil w : adv 0 [] w = w.
Proof. destruct w; unfold adv; simpl. by rewrite Nat.add_0_r, app_nil_r. Qed.

Lemma adv_adv k1 e1 k2 e2 w : adv k2 e2 (adv k1 e1 w) = adv (k1 + k2) (e1 ++ e2) w.
Proof. unfold adv; simpl. by rewrite Nat.add_assoc, app_assoc. Qed.

Lemma trace_adv k evs w : trace (adv k evs w) = trace w ++ evs.
Proof. done. Qed.

Lemma disk_adv k evs w : disk (adv k evs w) = disk w.
Proof. done. Qed.

Lemma next_addr_adv k evs w : next_addr (adv k evs w) = next_addr w + k.
Proof. done. Qed.

(** Weakest precondition of a computation, with one postcondition for a
    normal return and one for the death of the process. *)
Definition wp {A} (m : proc A) (Q : A → world → Prop) (D : world → Prop) (w : world) : Prop :=
  match m w with
  | Ret a w' => Q a w'
  | Died w' => D w'
  end.

Lemma wp_ret {A} (a : A) Q D w : Q a w → wp (ret a) Q D w.
Proof. done. Qed.

Lemma wp_bind {A B} (m : proc A) (k : A → proc B) Q D w :
  wp m (λ a w', wp (k a) Q D w') D w → wp (bind m k) Q D w.
Proof. unfold wp, bind. by destruct (m w). Qed.

Lemma wp_mono {A} (m : proc A) (Q Q' : A → world → Prop) (D D' : world → Prop) w :
  wp m Q D w → (∀ a w', Q a w' → Q' a w') → (∀ w', D w' → D' w') → wp m Q' D' w.
Proof. unfold wp. destruct (m w); auto. Qed.

Lemma wp_emit e Q D w : Q tt (adv 0 [e] w) → wp (emit e) Q D w.
Proof. done. Qed.

Lemma wp_fresh Q D w : Q (next_addr w) (adv 1 [] w) → wp fresh Q D w.
Proof. done. Qed.

Lemma wp_abort {A} (Q : A → world → Prop) D w : D (adv 0 [EvAbort] w) → wp abort Q D w.
Proof. done. Qed.

Lemma wp_fatal {A} why (Q : A → world → Prop) D w :
  D (adv 0 [EvFatal why; EvAbort] w) → wp (fatal why) Q D w.
Proof. intros H. unfold wp, fatal, bind, emit, abort. by rewrite adv_adv. Qed.

Lemma wp_Ret {A} (m : proc A) Q D w a w' : wp m Q D w → m w = Ret a w' → Q a w'.
Proof. unfold wp. intros H E. by rewrite E in H. Qed.

Lemma wp_Died {A} (m : proc A) Q D w w' : wp m Q D w → m w = Died w' → D w'.
Proof. unfold wp. intros H E. by rewrite E in H. Qed.

Lemma wp_final {A} (m : proc A) (P : world → Prop) w :
  wp m (λ _, P) P w → P (final_world (m w)).
Proof. unfold wp. by destruct (m w). Qed.

(** [w'] is [w] after some allocations and calls [evs] with [φ evs]. *)
Definition grows (φ : list event → Prop) (w w' : world) : Prop :=
  ∃ k evs, w' = adv k evs w ∧ φ evs.

Lemma grows_refl (φ : list event → Prop) w : φ [] → grows φ w w.
Proof. intros H. exists 0, []. by rewrite adv_0_nil. Qed.

Lemma grows_trans (φ1 φ2 φ : list event → Prop) w1 w2 w3 :
  grows φ1 w1 w2 → grows φ2 w2 w3 →
  (∀ e1 e2, φ1 e1 → φ2 e2 → φ (e1 ++ e2)) → grows φ w1 w3.
Proof.
  intros (k1 & e1 & -> & H1) (k2 & e2 & -> & H2) H.
  exists (k1 + k2), (e1 ++ e2). rewrite adv_adv. auto.
Qed.

Lemma grows_mono (φ ψ : list event → Prop) w w' :
  grows φ w w' → (∀ evs, φ evs → ψ evs) → grows ψ w w'.
Proof. intros (k & evs & -> & H) Hi. exists k, evs. auto. Qed.

(** * The orchestrator *)

(** ** Trace observations *)

Lemma created_app t1 t2 : created (t1 ++ t2) = created t1 ++ created t2.
Proof. induction t1 as [|[] t1 IH]; simpl; by rewrite ?IH. Qed.

Lemma started_app t1 t2 : started (t1 ++ t2) = started t1 ++ started t2.
Proof. induction t1 as [|[] t1 IH]; simpl; by rewrite ?IH. Qed.

Lemma dlopened_app t1 t2 : dlopened (t1 ++ t2) = dlopened t1 ++ dlopened t2.
Proof. induction t1 as [|[] t1 IH]; simpl; by rewrite ?IH. Qed.

Lemma quiet_nofactory e : quiet e → nofactory e.
Proof. by destruct e. Qed.

Lemma nofactory_sees pb0 e : nofactory e → sees pb0 e.
Proof. by destruct e. Qed.

Lemma sees_weaken (pb0 pb1 : phonebook) e : pb0 ⊆ pb1 → sees pb1 e → sees pb0 e.
Proof. destruct e; simpl; auto. intros ??. by etrans. Qed.

Lemma Forall_sees_weaken (pb0 pb1 : phonebook) evs :
  pb0 ⊆ pb1 → Forall (sees pb1) evs → Forall (sees pb0) evs.
Proof. intros H Hf. eapply Forall_impl; [exact Hf|]. intros e. by apply sees_weaken. Qed.

Lemma Forall_quiet_sees pb0 evs : Forall quiet evs → Forall (sees pb0) evs.
Proof.
  intros Hf. eapply Forall_impl; [exact Hf|].
  intros e ?. by apply nofactory_sees, quiet_nofactory.
Qed.

Lemma created_nofactory evs : Forall nofactory evs → created evs = [].
Proof. induction 1 as [|e evs He _ IH]; [done|]. by destruct e. Qed.

Lemma created_quiet evs : Forall quiet evs → created evs = [].
Proof. intros H. apply created_nofactory. eapply Forall_impl; [done|apply quiet_nofactory]. Qed.

Lemma started_quiet evs : Forall quiet evs → started evs = [].
Proof. induction 1 as [|e evs He _ IH]; [done|]. by destruct e. Qed.

Lemma dlopened_quiet evs : Forall quiet evs → dlopened evs = [].
Proof. induction 1 as [|e evs He _ IH]; [done|]. by destruct e. Qed.

Lemma created_starts l : created (EvStart <$> l) = [].
Proof. by induction l. Qed.

Lemma dlopened_starts l : dlopened (EvStart <$> l) = [].
Proof. by induction l. Qed.

Lemma started_starts l : started (EvStart <$> l) = l.
Proof. induction l; [done|]. simpl. by f_equal. Qed.

Lemma sees_starts pb0 l : Forall (sees pb0) (EvStart <$> l).
Proof. by induction l; constructor. Qed.

Lemma created_dlopens l : created (EvDlopen <$> l) = [].
Proof. by induction l. Qed.

Lemma dlopened_dlopens l : dlopened (EvDlopen <$> l) = l.
Proof. induction l; [done|]. simpl. by f_equal. Qed.

Lemma nofactory_dlopens l : Forall nofactory (EvDlopen <$> l).
Proof. by induction l; constructor. Qed.

(** ** phonebook and dynamic_lib *)

Lemma register_impl_spec cap inst (pb0 : phonebook) w :
  wp (register_impl cap inst pb0)
     (λ pb' w', pb0 !! cap = None ∧ pb' = <[cap := inst]> pb0 ∧
                w' = adv 0 [EvRegister cap inst] w)
     (λ w', is_Some (pb0 !! cap) ∧ ∃ why, w' = adv 0 [EvFatal why; EvAbort] w) w.
Proof.
  unfold register_impl. destruct (pb0 !! cap) eqn:E.
  - apply wp_fatal. eauto.
  - apply wp_bind, wp_emit, wp_ret. done.
Qed.

Lemma lookup_impl_spec cap (pb0 : phonebook) w :
  wp (lookup_impl cap pb0)
     (λ inst w', pb0 !! cap = Some inst ∧ w' = w)
     (λ w', pb0 !! cap = None ∧ ∃ why, w' = adv 0 [EvFatal why; EvAbort] w) w.
Proof.
  unfold lookup_impl. destruct (pb0 !! cap) eqn:E.
  - by apply wp_ret.
  - apply wp_fatal. eauto.
Qed.

Lemma dynamic_lib_create_spec so_path w :
  wp (dynamic_lib_create so_path)
     (λ lib w', lib_path lib = so_path ∧ disk w !! so_path = Some (lib_symbols lib) ∧
                w' = adv 0 [EvDlopen so_path] w)
     (λ w', disk w !! so_path = None ∧ ∃ why, w' = adv 0 [EvFatal why; EvAbort] w) w.
Proof.
  unfold wp, dynamic_lib_create. destruct (disk w !! so_path) eqn:E.
  - done.
  - split; [done|]. eexists. unfold fatal, bind, emit, abort. by rewrite adv_adv.
Qed.

Lemma dynamic_lib_get_spec lib sym w :
  wp (dynamic_lib_get lib sym)
     (λ f w', lib_symbols lib !! sym = Some f ∧ w' = w)
     (λ w', lib_symbols lib !! sym = None ∧ ∃ why, w' = adv 0 [EvFatal why; EvAbort] w) w.
Proof.
  unfold dynamic_lib_get. destruct (lib_symbols lib !! sym) eqn:E.
  - by apply wp_ret.
  - apply wp_fatal. eauto.
Qed.

(** ** Plugin construction *)

Lemma run_pb_action_spec a (pb0 : phonebook) w :
  wp (run_pb_action a pb0)
     (λ pb' w', pb0 ⊆ pb' ∧ grows (Forall quiet) w w')
     (grows (Forall quiet) w) w.
Proof.
  destruct a as [cap|cap]; simpl.
  - apply wp_bind. eapply wp_mono; [apply lookup_impl_spec|..].
    + intros inst w' [_ ->]. apply wp_ret. split; [done|]. by apply grows_refl.
    + intros w' [_ [why ->]]. eexists 0, _. split; [done|]. repeat constructor.
  - apply wp_bind, wp_fresh. eapply wp_mono; [apply register_impl_spec|..].
    + intros pb' w' (Hn & -> & ->). split; [by apply insert_subseteq|].
      rewrite adv_adv. eexists _, _. split; [done|]. repeat constructor.
    + intros w' (_ & why & ->).
      rewrite adv_adv. eexists _, _. split; [done|]. repeat constructor.
Qed.

Lemma run_ctor_spec acts (pb0 : phonebook) w :
  wp (run_ctor acts pb0)
     (λ pb' w', pb0 ⊆ pb' ∧ grows (Forall quiet) w w')
     (grows (Forall quiet) w) w.
Proof.
  revert pb0 w. induction acts as [|a acts IH]; intros pb0 w; simpl.
  - apply wp_ret. split; [done|]. by apply grows_refl.
  - apply wp_bind. eapply wp_mono; [apply run_pb_action_spec|..]; [|done].
    intros pb1 w1 [Hsub Hg]. eapply wp_mono; [apply IH|..].
    + intros pb2 w2 [Hsub2 Hg2]. split; [by etrans|].
      eapply grows_trans; [done..|]. intros. by apply Forall_app.
    + intros w2 Hg2. eapply grows_trans; [done..|]. intros. by apply Forall_app.
Qed.

Lemma call_factory_spec f (pb0 : phonebook) w :
  wp (call_factory f pb0)
     (λ r w', r.1 = next_addr w ∧ pb0 ⊆ r.2 ∧
        ∃ k evs, w' = adv (S k) (EvFactory (pf_name f) pb0 r.1 :: evs) w ∧
                 Forall quiet evs)
     (λ w', ∃ k evs, w' = adv (S k) (EvFactory (pf_name f) pb0 (next_addr w) :: evs) w ∧
                     Forall quiet evs) w.
Proof.
  unfold call_factory.
  apply wp_bind, wp_fresh, wp_bind, wp_emit, wp_bind.
  eapply wp_mono; [apply run_ctor_spec|..].
  - intros pb1 w1 [Hsub (k & evs & -> & Hq)]. apply wp_ret. simpl.
    split; [done|]. split; [done|]. exists k, evs. by rewrite !adv_adv.
  - intros w1 (k & evs & -> & Hq). exists k, evs. by rewrite !adv_adv.
Qed.

Lemma make_plugins_spec fs (pb0 : phonebook) w :
  wp (make_plugins fs pb0)
     (λ r w', pb0 ⊆ r.2 ∧
        ∃ k evs, w' = adv k evs w ∧ created evs = r.1 ∧ dlopened evs = [] ∧
                 started evs = [] ∧ Forall (sees pb0) evs)
     (grows (Forall (sees pb0)) w) w.
Proof.
  revert pb0 w. induction fs as [|f fs IH]; intros pb0 w; simpl.
  - apply wp_ret. split; [done|]. exists 0, []. by rewrite adv_0_nil.
  - apply wp_bind. eapply wp_mono; [apply call_factory_spec|..].
    + intros [p pb1] w1 (Hp & Hsub & k & evs & -> & Hq). simpl in *.
      apply wp_bind. eapply wp_mono; [apply IH|..].
      * intros [ps pb2] w2 (Hsub2 & k2 & evs2 & -> & Hc & Hd & Hs & Hsee).
        apply wp_ret. simpl in *. split; [by etrans|].
        eexists _, _. rewrite adv_adv. split; [done|].
        rewrite created_app, dlopened_app, started_app. simpl.
        rewrite created_quiet, dlopened_quiet, started_quiet by done.
        simpl. rewrite Hc, Hd, Hs. repeat split; try done.
        constructor; [simpl; reflexivity|]. apply Forall_app. split.
        -- by apply Forall_quiet_sees.
        -- by eapply Forall_sees_weaken.
      * intros w2 (k2 & evs2 & -> & Hsee). eexists _, _. rewrite adv_adv.
        split; [done|]. simpl. constructor; [simpl; reflexivity|]. apply Forall_app. split.
        -- by apply Forall_quiet_sees.
        -- by eapply Forall_sees_weaken.
    + intros w1 (k & evs & -> & Hq). eexists _, _. split; [done|].
      constructor; [simpl; reflexivity|]. by apply Forall_quiet_sees.
Qed.

(** ** Opening modules and resolving factories *)

Lemma mapM_create_spec so_paths w :
  wp (mapM dynamic_lib_create so_paths)
     (λ ls w', lib_path <$> ls = so_paths ∧ w' = adv 0 (EvDlopen <$> so_paths) w)
     (grows (Forall nofactory) w) w.
Proof.
  revert w. induction so_paths as [|p ps IH]; intros w; simpl.
  - apply wp_ret. by rewrite adv_0_nil.
  - apply wp_bind. eapply wp_mono; [apply dynamic_lib_create_spec|..].
    + intros lib w1 (Hp & _ & ->). apply wp_bind. eapply wp_mono; [apply IH|..].
      * intros ls w2 [Hls ->]. apply wp_ret. split.
        -- rewrite fmap_cons. by f_equal.
        -- by rewrite adv_adv.
      * intros w2 (k & evs & -> & Hn). rewrite adv_adv. eexists _, _. split; [done|].
        by constructor.
    + intros w1 (_ & why & ->). eexists _, _. split; [done|]. repeat constructor.
Qed.

Lemma mapM_get_spec sym ls w :
  wp (mapM (λ lib, dynamic_lib_get lib sym) ls)
     (λ fs w', w' = w ∧ Forall2 (λ lib f, lib_symbols lib !! sym = Some f) ls fs)
     (grows (Forall nofactory) w) w.
Proof.
  induction ls as [|lib ls IH]; simpl.
  - by apply wp_ret.
  - apply wp_bind. eapply wp_mono; [apply dynamic_lib_get_spec|..].
    + intros f w1 [Hf ->]. apply wp_bind. eapply wp_mono; [apply IH|..]; [|done].
      intros fs w2 [-> Hfs]. apply wp_ret. split; [done|]. by constructor.
    + intros w1 (_ & why & ->). eexists _, _. split; [done|]. repeat constructor.
Qed.

Lemma forM_start l w : forM_ plugin_start l w = Ret tt (adv 0 (EvStart <$> l) w).
Proof.
  revert w. induction l as [|p l IH]; intros w; simpl.
  - unfold ret. by rewrite adv_0_nil.
  - unfold bind, plugin_start, emit. by rewrite IH, adv_adv.
Qed.

Lemma forM_stop l w : forM_ plugin_stop l w = Ret tt (adv 0 (EvStop <$> l) w).
Proof.
  revert w. induction l as [|p l IH]; intros w; simpl.
  - unfold ret. by rewrite adv_0_nil.
  - unfold bind, plugin_stop, emit. by rewrite IH, adv_adv.
Qed.

Lemma wp_eq {A} (m : proc A) a w' (Q : A → world → Prop) D w :
  m w = Ret a w' → Q a w' → wp m Q D w.
Proof. unfold wp. by intros ->. Qed.

(** ** The operations *)

Lemma load_plugin_factory_spec f this w :
  wp (load_plugin_factory f this)
     (λ this' w',
        libs this' = libs this ∧ terminate this' = terminate this ∧
        pb this ⊆ pb this' ∧ plugins this' = plugins this ++ [next_addr w] ∧
        ∃ k evs, Forall quiet evs ∧
          w' = adv (S k) (EvFactory (pf_name f) (pb this) (next_addr w)
                            :: evs ++ [EvStart (next_addr w)]) w)
     (grows (Forall (sees (pb this))) w) w.
Proof.
  unfold load_plugin_factory. apply wp_bind.
  eapply wp_mono; [apply call_factory_spec|..].
  - intros [p pb1] w1 (Hp & Hsub & k & evs & -> & Hq). simpl in *. subst p.
    rewrite last_snoc. apply wp_bind, wp_emit, wp_ret. simpl.
    repeat split; try done. exists k, evs. split; [done|].
    rewrite adv_adv. f_equal. lia.
  - intros w1 (k & evs & -> & Hq). eexists _, _. split; [done|].
    constructor; [simpl; reflexivity|]. by apply Forall_quiet_sees.
Qed.

Lemma load_so_spec so this w :
  wp (load_so so this)
     (λ this' w',
        (∃ lib, lib_path lib = so ∧ libs this' = libs this ++ [lib]) ∧
        terminate this' = terminate this ∧
        pb this ⊆ pb this' ∧ plugins this' = plugins this ++ [next_addr w] ∧
        ∃ f k evs, Forall quiet evs ∧
          w' = adv (S k) (EvDlopen so :: EvFactory (pf_name f) (pb this) (next_addr w)
                            :: evs ++ [EvStart (next_addr w)]) w)
     (grows (Forall (sees (pb this))) w) w.
Proof.
  unfold load_so. apply wp_bind.
  eapply wp_mono; [apply dynamic_lib_create_spec|..].
  - intros lib w1 (Hp & _ & ->). apply wp_bind.
    eapply wp_mono; [apply dynamic_lib_get_spec|..].
    + intros f w2 [_ ->]. apply wp_bind.
      eapply wp_mono; [apply load_plugin_factory_spec|..].
      * intros this1 w3 (Hl & Ht & Hsub & Hpl & k & evs & Hq & Hw).
        rewrite next_addr_adv, Nat.add_0_r in Hpl, Hw. subst w3.
        apply wp_ret. simpl. rewrite Hl. repeat split; try done.
        -- by exists lib.
        -- exists f, k, evs. split; [done|]. by rewrite adv_adv.
      * intros w3 (k & evs & -> & Hs). rewrite adv_adv. eexists _, _.
        split; [done|]. by constructor.
    + intros w2 (_ & why & ->). rewrite adv_adv. eexists _, _.
      split; [done|]. repeat constructor.
  - intros w1 (_ & why & ->). eexists _, _. split; [done|]. repeat constructor.
Qed.

Lemma load_so_vec_spec so_paths this w :
  wp (load_so_vec so_paths this)
     (λ this' w', op_post this this' w w' ∧ terminate this' = terminate this)
     (grows (Forall (sees (pb this))) w) w.
Proof.
  unfold load_so_vec. apply wp_bind.
  eapply wp_mono; [apply mapM_create_spec|..].
  - intros ls w1 [Hls ->]. apply wp_bind.
    eapply wp_mono; [apply mapM_get_spec|..].
    + intros fs w2 [-> _]. apply wp_bind.
      eapply wp_mono; [apply make_plugins_spec|..].
      * intros [ps pb1] w3 (Hsub & k & evs & -> & Hc & Hd & Hs & Hsee). simpl in *.
        apply wp_bind. eapply wp_eq; [apply forM_start|]. apply wp_ret.
        split; [|done]. split; [done|]. simpl.
        eexists _, _. rewrite !adv_adv. split; [done|].
        rewrite !created_app, !dlopened_app, created_dlopens, dlopened_dlopens.
        rewrite created_starts, dlopened_starts, Hc, Hd, !app_nil_r. simpl.
        repeat split.
        -- apply Forall_app. split; [|apply Forall_app; split].
           ++ eapply Forall_impl; [apply nofactory_dlopens|]. apply nofactory_sees.
           ++ done.
           ++ apply sees_starts.
        -- by apply prefix_app_r.
        -- by rewrite fmap_app, Hls.
      * intros w3 (k & evs & -> & Hs). rewrite adv_adv. eexists _, _.
        split; [done|]. apply Forall_app. split; [|done].
        eapply Forall_impl; [apply nofactory_dlopens|]. apply nofactory_sees.
    + intros w2 (k & evs & -> & Hs). rewrite adv_adv. eexists _, _.
      split; [done|]. apply Forall_app. split.
      * eapply Forall_impl; [apply nofactory_dlopens|]. apply nofactory_sees.
      * eapply Forall_impl; [done|]. apply nofactory_sees.
  - intros w1 Hg. eapply grows_mono; [done|]. intros evs Hn.
    eapply Forall_impl; [done|]. apply nofactory_sees.
Qed.

Lemma stop_eq this sb w :
  pb this !! "switchboard" = Some sb →
  stop this w =
    Ret {| libs := libs this; pb := pb this; plugins := plugins this; terminate := true |}
        (adv 0 (EvSwitchboardStop sb :: (EvStop <$> plugins this) ++ [EvTerminateStore true]) w).
Proof.
  intros Hsb. unfold stop, bind, lookup_impl. rewrite Hsb. unfold ret, emit.
  rewrite forM_stop. by rewrite !adv_adv.
Qed.

Lemma stop_died this w :
  pb this !! "switchboard" = None →
  ∃ why, stop this w = Died (adv 0 [EvFatal why; EvAbort] w).
Proof.
  intros Hsb. unfold stop, bind, lookup_impl. rewrite Hsb.
  eexists. unfold fatal, bind, emit, abort. by rewrite adv_adv.
Qed.

Lemma created_stops l : created (EvStop <$> l) = [].
Proof. by induction l. Qed.

Lemma dlopened_stops l : dlopened (EvStop <$> l) = [].
Proof. by induction l. Qed.

Lemma started_stops l : started (EvStop <$> l) = [].
Proof. by induction l. Qed.

Lemma nofactory_stops l : Forall nofactory (EvStop <$> l).
Proof. by induction l; constructor. Qed.

Lemma stop_spec this w :
  wp (stop this)
     (λ this' w', op_post this this' w w' ∧ terminate this' = true)
     (grows (Forall (sees (pb this))) w) w.
Proof.
  destruct (pb this !! "switchboard") as [sb|] eqn:Hsb.
  - eapply wp_eq; [by apply stop_eq|]. split; [|done]. split; [done|]. simpl.
    eexists _, _. split; [done|]. simpl. rewrite created_app, dlopened_app. simpl.
    rewrite created_stops, dlopened_stops, !app_nil_r. repeat split; try done.
    constructor; [done|]. apply Forall_app. split; [|by repeat constructor].
    eapply Forall_impl; [apply nofactory_stops|]. apply nofactory_sees.
  - destruct (stop_died this w Hsb) as [why E]. unfold wp. rewrite E.
    eexists _, _. split; [done|]. repeat constructor.
Qed.

Lemma do_op_spec o this w :
  wp (do_op o this)
     (λ this' w', op_post this this' w w' ∧
                  terminate this' = terminate this || is_stop o)
     (grows (Forall (sees (pb this))) w) w.
Proof.
  destruct o as [so_paths|so|f|]; simpl.
  - eapply wp_mono; [apply load_so_vec_spec|..]; [|done].
    intros this' w' [Hp Ht]. by rewrite orb_false_r.
  - eapply wp_mono; [apply load_so_spec|..]; [|done].
    intros this' w' ([lib [Hlp Hl]] & Ht & Hsub & Hpl & f & k & evs & Hq & ->).
    rewrite orb_false_r. split; [|done]. split; [done|].
    eexists _, _. split; [done|]. simpl.
    rewrite created_app, dlopened_app, created_quiet, dlopened_quiet by done. simpl.
    subst so. rewrite Hl, fmap_app. repeat split; try done.
    + constructor; [done|]. constructor; [simpl; reflexivity|].
      apply Forall_app. split; [by apply Forall_quiet_sees|by repeat constructor].
    + by apply prefix_app_r.
  - eapply wp_mono; [apply load_plugin_factory_spec|..]; [|done].
    intros this' w' (Hl & Ht & Hsub & Hpl & k & evs & Hq & ->).
    rewrite orb_false_r. split; [|done]. split; [done|].
    eexists _, _. split; [done|]. simpl.
    rewrite created_app, dlopened_app, created_quiet, dlopened_quiet by done. simpl.
    rewrite Hl, app_nil_r. repeat split; try done.
    constructor; [simpl; reflexivity|].
    apply Forall_app. split; [by apply Forall_quiet_sees|by repeat constructor].
  - eapply wp_mono; [apply stop_spec|..]; [|done].
    intros this' w' [Hp ->]. by rewrite orb_true_r.
Qed.

Lemma op_post_refl this w : op_post this this w w.
Proof.
  split; [done|]. exists 0, []. rewrite adv_0_nil. simpl. by rewrite !app_nil_r.
Qed.

Lemma op_post_trans this1 this2 this3 w1 w2 w3 :
  op_post this1 this2 w1 w2 → op_post this2 this3 w2 w3 → op_post this1 this3 w1 w3.
Proof.
  intros (Hs1 & k1 & e1 & -> & Hf1 & Hp1 & Hx1 & Hl1)
         (Hs2 & k2 & e2 & -> & Hf2 & Hp2 & Hx2 & Hl2).
  split; [by etrans|]. exists (k1 + k2), (e1 ++ e2). rewrite adv_adv.
  split; [done|]. rewrite created_app, dlopened_app. repeat split.
  - apply Forall_app. split; [done|]. by eapply Forall_sees_weaken.
  - by rewrite Hp2, Hp1, app_assoc.
  - by etrans.
  - by rewrite Hl2, Hl1, app_assoc.
Qed.

Lemma op_post_grows this this' w w' :
  op_post this this' w w' → grows (Forall (sees (pb this))) w w'.
Proof. intros (_ & k & evs & -> & Hf & _). by exists k, evs. Qed.

Lemma grows_sees_trans this this' w w' w'' :
  op_post this this' w w' → grows (Forall (sees (pb this'))) w' w'' →
  grows (Forall (sees (pb this))) w w''.
Proof.
  intros Hp Hg. eapply grows_trans; [by eapply op_post_grows|done|].
  intros e1 e2 H1 H2. apply Forall_app. split; [done|].
  eapply Forall_sees_weaken; [|done]. apply Hp.
Qed.

Lemma run_ops_spec ops this w :
  wp (run_ops ops this)
     (λ this' w', op_post this this' w w' ∧
                  terminate this' = terminate this || existsb is_stop ops)
     (grows (Forall (sees (pb this))) w) w.
Proof.
  revert this w. induction ops as [|o ops IH]; intros this w; simpl.
  - apply wp_ret. split; [apply op_post_refl|]. by rewrite orb_false_r.
  - apply wp_bind. eapply wp_mono; [apply do_op_spec|..]; [|done].
    intros this1 w1 [Hp Ht]. eapply wp_mono; [apply IH|..].
    + intros this2 w2 [Hp2 Ht2]. split; [by eapply op_post_trans|].
      by rewrite Ht2, Ht, orb_assoc.
    + intros w2 Hg. by eapply grows_sees_trans.
Qed.

(** ** Construction *)

Lemma runtime_impl_new_eq mc d :
  runtime_impl_new mc (init_world d) =
    Ret {| libs := []; pb := pb_builtin; plugins := []; terminate := false |}
        (adv 5 (ctor_events mc) (init_world d)).
Proof. by destruct mc. Qed.

Lemma has_builtins_pb_builtin : has_builtins pb_builtin.
Proof.
  intros cap Hc. unfold builtins in Hc.
  repeat (apply elem_of_cons in Hc as [->|Hc]; [by eexists|]).
  by apply elem_of_nil in Hc.
Qed.

Lemma has_builtins_weaken (pb0 pb1 : phonebook) :
  pb0 ⊆ pb1 → has_builtins pb0 → has_builtins pb1.
Proof.
  intros Hsub Hb cap Hc. destruct (Hb cap Hc) as [i Hi].
  exists i. by eapply lookup_weaken.
Qed.

Lemma existsb_is_stop ops : existsb is_stop ops = true ↔ OpStop ∈ ops.
Proof.
  rewrite existsb_exists. split.
  - intros (o & Hin & Ho). destruct o; try done. by apply list_elem_of_In.
  - intros Hin. exists OpStop. split; [by apply list_elem_of_In|done].
Qed.

Lemma boot_spec mc ops d :
  wp (boot mc ops)
     (λ this w,
        pb_builtin ⊆ pb this ∧ terminate this = existsb is_stop ops ∧
        plugins this = created (trace w) ∧
        lib_path <$> libs this = dlopened (trace w) ∧
        ∃ k evs, w = adv k (ctor_events mc ++ evs) (init_world d) ∧
                 Forall (sees pb_builtin) evs)
     (λ w, ∃ k evs, w = adv k (ctor_events mc ++ evs) (init_world d) ∧
                    Forall (sees pb_builtin) evs)
     (init_world d).
Proof.
  unfold boot. apply wp_bind. eapply wp_eq; [apply runtime_impl_new_eq|].
  eapply wp_mono; [apply run_ops_spec|..].
  - intros this w [(Hsub & k & evs & -> & Hf & Hp & _ & Hl) Ht]. simpl in *.
    rewrite !created_app, !dlopened_app.
    repeat split; try done.
    + by destruct mc.
    + by destruct mc.
    + eexists _, evs. by rewrite adv_adv.
  - intros w (k & evs & -> & Hf). eexists _, evs. by rewrite adv_adv.
Qed.

(** ** Schedules with a waiter *)

Lemma wait_poll_eq this w :
  wait_poll this w =
    if terminate this then Ret true w else Ret false (adv 0 [EvSleep 10] w).
Proof. unfold wait_poll. by destruct (terminate this). Qed.

Lemma op_post_poll this w : op_post this this w (adv 0 [EvSleep 10] w).
Proof.
  split; [done|]. eexists _, _. split; [done|]. simpl.
  rewrite !app_nil_r. repeat split; try done. by repeat constructor.
Qed.

Lemma run_sched_spec s wt this w :
  wp (run_sched s wt this)
     (λ r w', op_post this r.2 w w' ∧
              terminate r.2 = terminate this || existsb is_stop (ops_of s))
     (grows (Forall (sees (pb this))) w) w.
Proof.
  revert wt this w. induction s as [|[o|] s IH]; intros wt this w; simpl.
  - apply wp_ret. split; [apply op_post_refl|]. by rewrite orb_false_r.
  - apply wp_bind. eapply wp_mono; [apply do_op_spec|..]; [|done].
    intros this1 w1 [Hp Ht]. eapply wp_mono; [apply IH|..].
    + intros r w2 [Hp2 Ht2]. split; [by eapply op_post_trans|].
      by rewrite Ht2, Ht, orb_assoc.
    + intros w2 Hg. by eapply grows_sees_trans.
  - destruct wt as [ms|ms]; [|apply IH].
    apply wp_bind.
    destruct (terminate this) eqn:Et;
      (eapply wp_eq; [rewrite wait_poll_eq, Et; reflexivity|]).
    + eapply wp_mono; [apply IH|..]; [|done].
      intros r w2 [Hp2 Ht2]. by rewrite Ht2, Et.
    + eapply wp_mono; [apply IH|..].
      * intros r w2 [Hp2 Ht2]. rewrite Ht2, Et. split; [|done].
        eapply op_post_trans; [apply op_post_poll|done].
      * intros w2 Hg. eapply grows_sees_trans; [apply op_post_poll|done].
Qed.

Lemma ops_of_app s1 s2 : ops_of (s1 ++ s2) = ops_of s1 ++ ops_of s2.
Proof. induction s1 as [|[] s1 IH]; simpl; by rewrite ?IH. Qed.

Lemma polls_app s1 s2 : polls (s1 ++ s2) = polls s1 + polls s2.
Proof. induction s1 as [|[] s1 IH]; simpl; by rewrite ?IH. Qed.

(** Once the flag is up, the first poll leaves the loop. *)
Lemma run_sched_flag_up s ms this w ms' this' w' :
  terminate this = true →
  run_sched s (Waiting ms) this w = Ret (Returned ms', this') w' →
  ∃ s1 s2, s = s1 ++ Poll :: s2 ∧ polls s1 = 0 ∧ ms' = ms.
Proof.
  revert this w. induction s as [|[o|] s IH]; intros this w Ht; simpl.
  - done.
  - unfold bind. pose proof (do_op_spec o this w) as Ho. unfold wp in Ho.
    destruct (do_op o this w) as [this1 w1|]; [|done].
    destruct Ho as [_ Ht1]. rewrite Ht in Ht1. intros Hr.
    destruct (IH _ _ Ht1 Hr) as (s1 & s2 & -> & Hp & ->).
    by exists (Act o :: s1), s2.
  - unfold bind. rewrite wait_poll_eq, Ht. intros Hr.
    exists [], s. split; [done|]. split; [done|].
    clear IH Ht. revert this w Hr. induction s as [|[o|] s IH]; intros this w; simpl.
    + by intros [= ->].
    + unfold bind. destruct (do_op o this w); [apply IH|done].
    + apply IH.
Qed.

(** While the flag is down every poll sleeps; a waiter that has returned
    saw a [stop()] complete before its last poll. *)
Lemma run_sched_flag_down s ms this w wt' this' w' :
  terminate this = false →
  run_sched s (Waiting ms) this w = Ret (wt', this') w' →
  (OpStop ∉ ops_of s → wt' = Waiting (ms + 10 * polls s)) ∧
  (∀ ms', wt' = Returned ms' →
     ∃ s1 s2, s = s1 ++ Poll :: s2 ∧ OpStop ∈ ops_of s1 ∧ ms' = ms + 10 * polls s1).
Proof.
  revert ms this w. induction s as [|[o|] s IH]; intros ms this w Ht; simpl.
  - intros [= <- <- <-]. split; [intros _; f_equal; lia|done].
  - unfold bind. pose proof (do_op_spec o this w) as Ho. unfold wp in Ho.
    destruct (do_op o this w) as [this1 w1|]; [|done].
    destruct Ho as [_ Ht1]. rewrite Ht in Ht1. simpl in Ht1. intros Hr.
    destruct (is_stop o) eqn:Eo.
    + destruct o; try done. split.
      * intros Hn. exfalso. apply Hn. by left.
      * intros ms' ->. destruct (run_sched_flag_up _ _ _ _ _ _ _ Ht1 Hr)
          as (s1 & s2 & -> & Hp & ->).
        exists (Act OpStop :: s1), s2. simpl. split; [done|].
        split; [by left|lia].
    + destruct (IH _ _ _ Ht1 Hr) as [H1 H2]. split.
      * intros Hn. apply H1. intros Hin. apply Hn. by right.
      * intros ms' Hw. destruct (H2 _ Hw) as (s1 & s2 & -> & Hin & ->).
        exists (Act o :: s1), s2. simpl. split; [done|]. split; [by right|done].
  - unfold bind. rewrite wait_poll_eq, Ht. intros Hr.
    destruct (IH _ _ _ Ht Hr) as [H1 H2]. split.
    + intros Hn. rewrite (H1 Hn). f_equal. lia.
    + intros ms' Hw. destruct (H2 _ Hw) as (s1 & s2 & -> & Hin & ->).
      exists (Poll :: s1), s2. simpl. split; [done|]. split; [done|lia].
Qed.

Lemma wait_flag_down fuel this w :
  terminate this = false →
  wait fuel this w = Ret false (adv 0 (replicate fuel (EvSleep 10)) w).
Proof.
  intros Ht. revert w. induction fuel as [|fuel IH]; intros w; simpl.
  - unfold ret. by rewrite adv_0_nil.
  - unfold bind. rewrite wait_poll_eq, Ht, IH. by rewrite adv_adv.
Qed.

Lemma wait_flag_up fuel this w :
  terminate this = true → wait (S fuel) this w = Ret true w.
Proof. intros Ht. simpl. unfold bind. by rewrite wait_poll_eq, Ht. Qed.

(** ** No operation closes a module *)

Lemma closes_nothing_ret {A} (a : A) : closes_nothing (ret a).
Proof. by intros w H. Qed.

Lemma closes_nothing_bind {A B} (m : proc A) (k : A → proc B) :
  closes_nothing m → (∀ a, closes_nothing (k a)) → closes_nothing (bind m k).
Proof.
  intros Hm Hk w H. specialize (Hm w H). unfold bind.
  destruct (m w) as [a w1|w1]; [by apply Hk|done].
Qed.

Lemma closes_nothing_emit e : noclose e → closes_nothing (emit e).
Proof. intros He w H. simpl. apply Forall_app. split; [done|by constructor]. Qed.

Lemma closes_nothing_fresh : closes_nothing fresh.
Proof. intros w H. simpl. by rewrite app_nil_r. Qed.

Lemma closes_nothing_abort {A} : closes_nothing (@abort A).
Proof. intros w H. simpl. apply Forall_app. split; [done|by repeat constructor]. Qed.

Lemma closes_nothing_fatal {A} why : closes_nothing (@fatal A why).
Proof.
  apply closes_nothing_bind; [by apply closes_nothing_emit|].
  intros _. apply closes_nothing_abort.
Qed.

Lemma closes_nothing_mapM {A B} (f : A → proc B) l :
  (∀ x, closes_nothing (f x)) → closes_nothing (mapM f l).
Proof.
  intros Hf. induction l as [|x l IH]; simpl; [apply closes_nothing_ret|].
  apply closes_nothing_bind; [done|]. intros y.
  apply closes_nothing_bind; [done|]. intros ys. apply closes_nothing_ret.
Qed.

Lemma closes_nothing_forM_ {A} (f : A → proc unit) l :
  (∀ x, closes_nothing (f x)) → closes_nothing (forM_ f l).
Proof.
  intros Hf. induction l as [|x l IH]; simpl; [apply closes_nothing_ret|].
  by apply closes_nothing_bind.
Qed.

Lemma closes_nothing_register_impl cap inst (pb0 : phonebook) :
  closes_nothing (register_impl cap inst pb0).
Proof.
  unfold register_impl. destruct (pb0 !! cap); [apply closes_nothing_fatal|].
  apply closes_nothing_bind; [by apply closes_nothing_emit|].
  intros _. apply closes_nothing_ret.
Qed.

Lemma closes_nothing_lookup_impl cap (pb0 : phonebook) :
  closes_nothing (lookup_impl cap pb0).
Proof.
  unfold lookup_impl. destruct (pb0 !! cap);
    [apply closes_nothing_ret|apply closes_nothing_fatal].
Qed.

Lemma closes_nothing_dynamic_lib_create so_path :
  closes_nothing (dynamic_lib_create so_path).
Proof.
  intros w H. unfold dynamic_lib_create. destruct (disk w !! so_path).
  - simpl. apply Forall_app. split; [done|by constructor].
  - by apply closes_nothing_fatal.
Qed.

Lemma closes_nothing_dynamic_lib_get lib sym :
  closes_nothing (dynamic_lib_get lib sym).
Proof.
  unfold dynamic_lib_get. destruct (lib_symbols lib !! sym);
    [apply closes_nothing_ret|apply closes_nothing_fatal].
Qed.

Lemma closes_nothing_run_ctor acts : ∀ pb0 : phonebook, closes_nothing (run_ctor acts pb0).
Proof.
  induction acts as [|a acts IH]; intros pb0; simpl; [apply closes_nothing_ret|].
  apply closes_nothing_bind; [|done]. destruct a as [cap|cap]; simpl.
  - apply closes_nothing_bind; [apply closes_nothing_lookup_impl|].
    intros _. apply closes_nothing_ret.
  - apply closes_nothing_bind; [apply closes_nothing_fresh|].
    intros inst. apply closes_nothing_register_impl.
Qed.

Lemma closes_nothing_call_factory f (pb0 : phonebook) : closes_nothing (call_factory f pb0).
Proof.
  unfold call_factory. apply closes_nothing_bind; [apply closes_nothing_fresh|].
  intros p. apply closes_nothing_bind; [by apply closes_nothing_emit|].
  intros _. apply closes_nothing_bind; [apply closes_nothing_run_ctor|].
  intros pb1. apply closes_nothing_ret.
Qed.

Lemma closes_nothing_make_plugins fs : ∀ pb0 : phonebook,
  closes_nothing (make_plugins fs pb0).
Proof.
  induction fs as [|f fs IH]; intros pb0; simpl; [apply closes_nothing_ret|].
  apply closes_nothing_bind; [apply closes_nothing_call_factory|].
  intros r. apply closes_nothing_bind; [done|]. intros rs. apply closes_nothing_ret.
Qed.

Lemma closes_nothing_load_plugin_factory f this :
  closes_nothing (load_plugin_factory f this).
Proof.
  unfold load_plugin_factory.
  apply closes_nothing_bind; [apply closes_nothing_call_factory|]. intros r.
  apply closes_nothing_bind; [|intros _; apply closes_nothing_ret].
  destruct (last _); [by apply closes_nothing_emit|apply closes_nothing_abort].
Qed.

Lemma closes_nothing_do_op o this : closes_nothing (do_op o this).
Proof.
  destruct o as [so_paths|so|f|]; simpl.
  - unfold load_so_vec.
    apply closes_nothing_bind;
      [apply closes_nothing_mapM, closes_nothing_dynamic_lib_create|]. intros ls.
    apply closes_nothing_bind;
      [apply closes_nothing_mapM; intros lib; apply closes_nothing_dynamic_lib_get|].
    intros fs. apply closes_nothing_bind; [apply closes_nothing_make_plugins|].
    intros r. apply closes_nothing_bind; [|intros _; apply closes_nothing_ret].
    apply closes_nothing_forM_. intros p. by apply closes_nothing_emit.
  - unfold load_so.
    apply closes_nothing_bind; [apply closes_nothing_dynamic_lib_create|]. intros lib.
    apply closes_nothing_bind; [apply closes_nothing_dynamic_lib_get|]. intros f.
    apply closes_nothing_bind; [apply closes_nothing_load_plugin_factory|].
    intros this'. apply closes_nothing_ret.
  - apply closes_nothing_load_plugin_factory.
  - unfold stop.
    apply closes_nothing_bind; [apply closes_nothing_lookup_impl|]. intros sb.
    apply closes_nothing_bind; [by apply closes_nothing_emit|]. intros _.
    apply closes_nothing_bind;
      [apply closes_nothing_forM_; intros p; by apply closes_nothing_emit|]. intros _.
    apply closes_nothing_bind; [by apply closes_nothing_emit|]. intros _.
    apply closes_nothing_ret.
Qed.

Lemma closes_nothing_wait_poll this : closes_nothing (wait_poll this).
Proof.
  unfold wait_poll. destruct (negb (terminate this)); [|apply closes_nothing_ret].
  apply closes_nothing_bind; [by apply closes_nothing_emit|].
  intros _. apply closes_nothing_ret.
Qed.

Lemma closes_nothing_run_sched s : ∀ wt this, closes_nothing (run_sched s wt this).
Proof.
  induction s as [|[o|] s IH]; intros wt this; simpl.
  - apply closes_nothing_ret.
  - apply closes_nothing_bind; [apply closes_nothing_do_op|done].
  - destruct wt as [ms|ms]; [|done].
    apply closes_nothing_bind; [apply closes_nothing_wait_poll|]. intros b. apply IH.
Qed.

Lemma closes_nothing_runtime_impl_new mc : closes_nothing (runtime_impl_new mc).
Proof.
  unfold runtime_impl_new.
  apply closes_nothing_bind.
  { destruct mc; [apply closes_nothing_ret|by apply closes_nothing_emit]. }
  intros _.
  repeat (apply closes_nothing_bind; [apply closes_nothing_fresh|]; intros ?;
          apply closes_nothing_bind; [apply closes_nothing_register_impl|]; intros ?).
  apply closes_nothing_ret.
Qed.

Lemma closes_nothing_runtime_impl_delete this : closes_nothing (runtime_impl_delete this).
Proof.
  unfold runtime_impl_delete. destruct (negb (terminate this)); [|apply closes_nothing_ret].
  apply closes_nothing_bind; [by apply closes_nothing_emit|].
  intros _. apply closes_nothing_abort.
Qed.

Lemma closes_nothing_boot_sched mc s : closes_nothing (boot_sched mc s).
Proof.
  unfold boot_sched.
  apply closes_nothing_bind; [apply closes_nothing_runtime_impl_new|].
  intros this. apply closes_nothing_run_sched.
Qed.

Lemma closes_nothing_orchestrator_life mc s : closes_nothing (orchestrator_life mc s).
Proof.
  unfold orchestrator_life.
  apply closes_nothing_bind; [apply closes_nothing_boot_sched|].
  intros r. apply closes_nothing_runtime_impl_delete.
Qed.

Lemma noclose_not_elem tr path : Forall noclose tr → EvDlclose path ∉ tr.
Proof. intros H Hin. rewrite Forall_forall in H. by apply (H _ Hin). Qed.

(** * Properties of the orchestrator *)

(** C1.  After construction and any sequence of operations, [stop()] looks
    the switchboard up (the instance the constructor registered), stops it,
    then calls [stop()] on every plugin in the order in which the instances
    were built, and stores [true] into the terminate flag last: the calls it
    makes are exactly that sequence, so no plugin is stopped before the
    switchboard and the flag is raised after the last plugin stop. *)
Theorem stop_order mc ops d this w :
  boot mc ops (init_world d) = Ret this w →
  ∃ sb this',
    pb this !! "switchboard" = Some sb ∧
    EvRegister "switchboard" sb ∈ trace w ∧
    plugins this = created (trace w) ∧
    stop this w =
      Ret this' (adv 0 ([EvSwitchboardStop sb] ++ (EvStop <$> plugins this)
                          ++ [EvTerminateStore true]) w) ∧
    terminate this' = true.
Proof.
  intros Hb. pose proof (wp_Ret _ _ _ _ _ _ (boot_spec mc ops d) Hb)
    as (Hsub & _ & Hpl & _ & k & evs & -> & _).
  assert (pb this !! "switchboard" = Some 2) as Hsb.
  { eapply lookup_weaken; [|exact Hsub]. done. }
  exists 2, {| libs := libs this; pb := pb this; plugins := plugins this; terminate := true |}.
  split; [done|]. split; [|split; [done|split; [by apply stop_eq|done]]].
  simpl. apply elem_of_app. left. apply elem_of_app. right.
  do 2 right. by left.
Qed.

Lemma stop_order_witness :
  boot false sample_ops_1 (init_world sample_disk) = Ret sample_run_1.1 sample_run_1.2 ∧
  ∃ sb this',
    pb sample_run_1.1 !! "switchboard" = Some sb ∧
    EvRegister "switchboard" sb ∈ trace sample_run_1.2 ∧
    plugins sample_run_1.1 = created (trace sample_run_1.2) ∧
    stop sample_run_1.1 sample_run_1.2 =
      Ret this' (adv 0 ([EvSwitchboardStop sb] ++ (EvStop <$> plugins sample_run_1.1)
                          ++ [EvTerminateStore true]) sample_run_1.2) ∧
    terminate this' = true.
Proof.
  split; [vm_compute; reflexivity|].
  apply (stop_order false sample_ops_1 sample_disk). vm_compute. reflexivity.
Defined.

(** C3.  The destructor aborts exactly when the terminate flag is still
    false, which after construction and any sequence of operations is the
    case exactly when [stop()] was never called: it then writes the
    diagnostic to [std::cerr] and calls [abort()]; after a [stop()] it
    returns normally without any call. *)
Theorem destructor_requires_stop mc ops d this w :
  boot mc ops (init_world d) = Ret this w →
  (OpStop ∉ ops →
     terminate this = false ∧
     runtime_impl_delete this w =
       Died (adv 0 [EvCerr "You didn't call stop() before destructing this plugin."; EvAbort] w)) ∧
  (OpStop ∈ ops →
     terminate this = true ∧ runtime_impl_delete this w = Ret tt w).
Proof.
  intros Hb. pose proof (wp_Ret _ _ _ _ _ _ (boot_spec mc ops d) Hb) as (_ & Ht & _).
  unfold runtime_impl_delete. split; intros Hs.
  - assert (terminate this = false) as E.
    { rewrite Ht. apply not_true_is_false. by rewrite existsb_is_stop. }
    rewrite E. split; [done|]. simpl. unfold bind, emit, abort. by rewrite adv_adv.
  - assert (terminate this = true) as E.
    { rewrite Ht. by apply existsb_is_stop. }
    by rewrite E.
Qed.

Lemma destructor_requires_stop_witness :
  boot false sample_ops_2 (init_world sample_disk) = Ret sample_run_2.1 sample_run_2.2 ∧
  OpStop ∈ sample_ops_2 ∧
  terminate sample_run_2.1 = true ∧
  runtime_impl_delete sample_run_2.1 sample_run_2.2 = Ret tt sample_run_2.2.
Proof.
  split; [vm_compute; reflexivity|].
  assert (OpStop ∈ sample_ops_2) as Hin by (right; left).
  split; [exact Hin|].
  apply (destructor_requires_stop false sample_ops_2 sample_disk);
    [vm_compute; reflexivity|exact Hin].
Defined.

(** C5.  The constructor registers the five built-in services (record
    logger, GUID source, switchboard, window, realtime clock) and never
    fails; in every run, whether it returns or dies, the calls of the
    constructor come first, and every factory that is invoked is handed a
    registry that contains the five instances the constructor registered. *)
Theorem builtins_registered_before_load mc ops d :
  runtime_impl_new mc (init_world d) =
    Ret {| libs := []; pb := pb_builtin; plugins := []; terminate := false |}
        (adv 5 (ctor_events mc) (init_world d)) ∧
  has_builtins pb_builtin ∧
  created (ctor_events mc) = [] ∧ dlopened (ctor_events mc) = [] ∧
  ∃ evs,
    trace (final_world (boot mc ops (init_world d))) = ctor_events mc ++ evs ∧
    ∀ f seen p, EvFactory f seen p ∈ evs → pb_builtin ⊆ seen ∧ has_builtins seen.
Proof.
  split; [apply runtime_impl_new_eq|]. split; [apply has_builtins_pb_builtin|].
  split; [by destruct mc|]. split; [by destruct mc|].
  assert (∀ w, (∃ k evs, w = adv k (ctor_events mc ++ evs) (init_world d) ∧
                         Forall (sees pb_builtin) evs) →
          ∃ evs, trace w = ctor_events mc ++ evs ∧
            ∀ f seen p, EvFactory f seen p ∈ evs → pb_builtin ⊆ seen ∧ has_builtins seen)
    as Hfin.
  { intros w (k & evs & -> & Hf). exists evs. split; [done|].
    intros f seen p Hin. rewrite Forall_forall in Hf. specialize (Hf _ Hin). simpl in Hf.
    split; [done|]. eapply has_builtins_weaken; [done|apply has_builtins_pb_builtin]. }
  apply (wp_final (boot mc ops)
           (λ w, ∃ evs, trace w = ctor_events mc ++ evs ∧
              ∀ f seen p, EvFactory f seen p ∈ evs → pb_builtin ⊆ seen ∧ has_builtins seen)).
  eapply wp_mono; [apply boot_spec|..].
  - intros this w (_ & _ & _ & _ & H). by apply Hfin.
  - intros w H. by apply Hfin.
Qed.

(** C6.  One iteration of the loop of [wait()] leaves the loop when the
    terminate flag is set and otherwise sleeps 10 ms and goes round again;
    run alone, the loop never ends while the flag is false, whatever the
    number of iterations.  Next to a thread that drives the orchestrator,
    a waiter that has not seen a [stop()] is still waiting, having slept
    10 ms per poll, and a waiter that has returned did so at a poll that
    came after a completed [stop()]. *)
Theorem wait_returns_only_after_stop mc d s wt this w :
  boot_sched mc s (init_world d) = Ret (wt, this) w →
  (∀ this0 w0, wait_poll this0 w0 =
     if terminate this0 then Ret true w0 else Ret false (adv 0 [EvSleep 10] w0)) ∧
  (∀ fuel this0 w0, terminate this0 = false →
     wait fuel this0 w0 = Ret false (adv 0 (replicate fuel (EvSleep 10)) w0)) ∧
  (∀ fuel this0 w0, terminate this0 = true → wait (S fuel) this0 w0 = Ret true w0) ∧
  (OpStop ∉ ops_of s → wt = Waiting (10 * polls s)) ∧
  (∀ ms, wt = Returned ms →
     ∃ s1 s2, s = s1 ++ Poll :: s2 ∧ OpStop ∈ ops_of s1 ∧ ms = 10 * polls s1).
Proof.
  intros Hb. split; [apply wait_poll_eq|]. split; [apply wait_flag_down|].
  split; [apply wait_flag_up|].
  unfold boot_sched, bind in Hb. rewrite runtime_impl_new_eq in Hb.
  eapply run_sched_flag_down in Hb; [|reflexivity]. exact Hb.
Qed.

Lemma wait_returns_only_after_stop_witness :
  boot_sched false sample_sched_1 (init_world sample_disk)
    = Ret (Returned 20, sample_run_3.1.2) sample_run_3.2 ∧
  ∃ s1 s2, sample_sched_1 = s1 ++ Poll :: s2 ∧ OpStop ∈ ops_of s1 ∧ 20 = 10 * polls s1.
Proof.
  split; [vm_compute; reflexivity|].
  apply (wait_returns_only_after_stop false sample_disk sample_sched_1
           (Returned 20) sample_run_3.1.2 sample_run_3.2);
    [vm_compute; reflexivity|reflexivity].
Defined.

(** C8.  At any point of a run the handles in [libs] are exactly the
    modules opened so far, in the order in which they were opened, and
    whatever the orchestrator does afterwards (loads, stops, polls of
    [wait()]) the earlier [libs] is a prefix of the later one: a handle is
    never removed, replaced or reordered.  No module is ever closed: there
    is no [dlclose] among the calls of a run, nor among those of the body
    of the destructor that ends it, nor in any life of an orchestrator
    (construction, operations and polls in any order, destructor body),
    whether it returns or ends the process. *)
Theorem libs_retained mc d s1 s2 wt1 this1 w1 wt2 this2 w2 :
  boot_sched mc s1 (init_world d) = Ret (wt1, this1) w1 →
  run_sched s2 wt1 this1 w1 = Ret (wt2, this2) w2 →
  lib_path <$> libs this1 = dlopened (trace w1) ∧
  libs this1 `prefix_of` libs this2 ∧
  lib_path <$> libs this2 = dlopened (trace w2) ∧
  (∀ path, EvDlclose path ∉ trace w2) ∧
  (∀ path, EvDlclose path ∉ trace (final_world (runtime_impl_delete this2 w2))) ∧
  (∀ s path,
     EvDlclose path ∉ trace (final_world (orchestrator_life mc s (init_world d)))).
Proof.
  intros Hb Hr.
  assert (Forall noclose (trace w2)) as Hnc.
  { pose proof (closes_nothing_run_sched s2 wt1 this1 w1) as H2. rewrite Hr in H2.
    apply H2. pose proof (closes_nothing_boot_sched mc s1 (init_world d)) as H1.
    rewrite Hb in H1. apply H1. constructor. }
  unfold boot_sched, bind in Hb. rewrite runtime_impl_new_eq in Hb.
  pose proof (wp_Ret _ _ _ _ _ _ (run_sched_spec _ _ _ _) Hb)
    as [(_ & k1 & e1 & -> & _ & _ & _ & Hl1) _].
  pose proof (wp_Ret _ _ _ _ _ _ (run_sched_spec _ _ _ _) Hr)
    as [(_ & k2 & e2 & Hw2 & _ & _ & Hpre & Hl2) _].
  split; [|split; [done|split; [|split; [|split]]]].
  - simpl in *. rewrite !dlopened_app.
    assert (dlopened (ctor_events mc) = []) as -> by by destruct mc. done.
  - rewrite Hw2. simpl in *. rewrite !dlopened_app.
    assert (dlopened (ctor_events mc) = []) as -> by by destruct mc.
    simpl. by rewrite Hl2, Hl1.
  - intros path. by apply noclose_not_elem.
  - intros path. by apply noclose_not_elem, closes_nothing_runtime_impl_delete.
  - intros s path. apply noclose_not_elem, closes_nothing_orchestrator_life. constructor.
Qed.

Lemma libs_retained_witness :
  boot_sched false sample_sched_2 (init_world sample_disk)
    = Ret sample_run_4.1 sample_run_4.2 ∧
  run_sched sample_sched_3 sample_run_4.1.1 sample_run_4.1.2 sample_run_4.2
    = Ret sample_run_5.1 sample_run_5.2 ∧
  lib_path <$> libs sample_run_4.1.2 = dlopened (trace sample_run_4.2) ∧
  libs sample_run_4.1.2 `prefix_of` libs sample_run_5.1.2 ∧
  lib_path <$> libs sample_run_5.1.2 = dlopened (trace sample_run_5.2) ∧
  dlopened (trace sample_run_5.2) = ["a.so"; "b.so"; "a.so"] ∧
  (∀ path, EvDlclose path ∉ trace sample_run_5.2) ∧
  (∀ path,
     EvDlclose path ∉
       trace (final_world (runtime_impl_delete sample_run_5.1.2 sample_run_5.2))).
Proof.
  split; [vm_compute; reflexivity|]. split; [vm_compute; reflexivity|].
  destruct (libs_retained false sample_disk sample_sched_2 sample_sched_3
              sample_run_4.1.1 sample_run_4.1.2 sample_run_4.2
              sample_run_5.1.1 sample_run_5.1.2 sample_run_5.2)
    as (H1 & H2 & H3 & H4 & H5 & _); [vm_compute; reflexivity..|].
  split; [exact H1|]. split; [exact H2|]. split; [exact H3|].
  split; [vm_compute; reflexivity|]. split; [exact H4|exact H5].
Defined.

(** ** How often a plugin is started *)

Lemma load_so_vec_started so_paths this w this' w' :
  load_so_vec so_paths this w = Ret this' w' →
  ∃ k evs, w' = adv k evs w ∧
    plugins this' = plugins this ++ created evs ∧
    started evs = plugins this ++ created evs.
Proof.
  unfold load_so_vec, bind.
  pose proof (mapM_create_spec so_paths w) as H1. unfold wp in H1.
  destruct (mapM dynamic_lib_create so_paths w) as [ls w1|]; [|done].
  destruct H1 as [_ ->].
  match goal with |- context [mapM ?f ?l ?w] =>
    pose proof (mapM_get_spec "this_plugin_factory" l w) as H2; unfold wp in H2;
    destruct (mapM f l w) as [fs w2|]; [|done] end.
  destruct H2 as [-> _].
  match goal with |- context [make_plugins ?fs ?p ?w] =>
    pose proof (make_plugins_spec fs p w) as H3; unfold wp in H3;
    destruct (make_plugins fs p w) as [[ps pb1] w3|]; [|done] end.
  destruct H3 as (_ & k & evs & -> & Hc & _ & Hs & _). simpl.
  rewrite forM_start. unfold ret. intros [= <- <-]. simpl.
  eexists _, _. rewrite !adv_adv. split; [done|].
  rewrite !created_app, !started_app, created_dlopens, created_starts, started_starts.
  rewrite Hc, Hs, app_nil_r. simpl. split; [done|].
  clear. induction so_paths; simpl; auto.
Qed.

Lemma filter_eq_absent (p : addr) l : p ∉ l → filter (λ q, q = p) l = [].
Proof.
  induction l as [|x l IH]; intros Hp; [done|].
  rewrite filter_cons. apply not_elem_of_cons in Hp as [Hne Hp].
  destruct (decide (x = p)) as [->|_]; [done|]. by apply IH.
Qed.

Lemma count_NoDup (p : addr) l :
  NoDup l → p ∈ l → length (filter (λ q, q = p) l) = 1.
Proof.
  induction 1 as [|x l Hx Hnd IH]; intros Hin.
  - by apply elem_of_nil in Hin.
  - rewrite filter_cons. destruct (decide (x = p)) as [->|Hne]; simpl.
    + by rewrite filter_eq_absent.
    + apply IH. by apply elem_of_cons in Hin as [->|Hin].
Qed.

Lemma started_once_step this w this' k evs :
  started_once this w →
  plugins this' = plugins this ++ [next_addr w] →
  created evs = [next_addr w] → started evs = [next_addr w] →
  started_once this' (adv (S k) evs w).
Proof.
  intros (Hp & Hs & Hlt & Hnd) Hp' Hc Hs'. unfold started_once. simpl.
  rewrite created_app, started_app, Hc, Hs', Hs, Hp', Hp.
  split; [done|]. split; [done|]. split.
  - apply Forall_app. split.
    + eapply Forall_impl; [exact Hlt|]. simpl. intros; lia.
    + constructor; [lia|constructor].
  - apply NoDup_app. split; [done|]. split; [|apply NoDup_singleton].
    intros q Hq Hq'. apply list_elem_of_singleton in Hq' as ->.
    rewrite Forall_forall in Hlt. specialize (Hlt _ Hq). simpl in Hlt. lia.
Qed.

Lemma started_once_do_op o this w this' w' :
  is_vec o = false → started_once this w →
  do_op o this w = Ret this' w' → started_once this' w'.
Proof.
  intros Hv Hso Ho. destruct o as [so_paths|so|f|]; [done|..]; simpl in Ho.
  - pose proof (wp_Ret _ _ _ _ _ _ (load_so_spec so this w) Ho)
      as (_ & _ & _ & Hpl & f & k & evs & Hq & ->).
    eapply started_once_step; [done..| |]; simpl.
    + by rewrite created_app, created_quiet.
    + by rewrite started_app, started_quiet.
  - pose proof (wp_Ret _ _ _ _ _ _ (load_plugin_factory_spec f this w) Ho)
      as (_ & _ & _ & Hpl & k & evs & Hq & ->).
    eapply started_once_step; [done..| |]; simpl.
    + by rewrite created_app, created_quiet.
    + by rewrite started_app, started_quiet.
  - destruct Hso as (Hp & Hs & Hlt & Hnd).
    destruct (pb this !! "switchboard") as [sb|] eqn:Hsb.
    + rewrite (stop_eq _ _ _ Hsb) in Ho. injection Ho as <- <-.
      unfold started_once. simpl.
      rewrite created_app, started_app. simpl.
      rewrite created_app, started_app, created_stops, started_stops. simpl.
      rewrite !app_nil_r, Nat.add_0_r. done.
    + destruct (stop_died this w Hsb) as [why E]. by rewrite E in Ho.
Qed.

Lemma started_once_run_ops ops this w this' w' :
  forallb (λ o, negb (is_vec o)) ops = true → started_once this w →
  run_ops ops this w = Ret this' w' → started_once this' w'.
Proof.
  revert this w. induction ops as [|o ops IH]; intros this w Hv Hso; simpl.
  - by intros [= <- <-].
  - simpl in Hv. apply andb_true_iff in Hv as [Ho Hv].
    unfold bind. destruct (do_op o this w) as [this1 w1|] eqn:E; [|done].
    apply IH; [done|]. eapply started_once_do_op; [|done..].
    by apply negb_true_iff.
Qed.

(** The single-module path and [load_plugin_factory] do start each
    instance once: in a run that never uses the vector overload, every
    plugin the orchestrator holds has had exactly one [start()]. *)
Lemma single_loads_start_once mc ops d this w :
  forallb (λ o, negb (is_vec o)) ops = true →
  boot mc ops (init_world d) = Ret this w →
  ∀ p, p ∈ plugins this → start_count p (trace w) = 1.
Proof.
  intros Hv Hb p Hp. unfold boot, bind in Hb. rewrite runtime_impl_new_eq in Hb.
  assert (started_once this w) as (Hpl & Hs & _ & Hnd).
  { eapply started_once_run_ops; [done| |done].
    unfold started_once. simpl. destruct mc; simpl; repeat split; constructor. }
  unfold start_count. rewrite Hs. apply count_NoDup; [done|]. by rewrite <- Hpl.
Qed.

(** C2.  The vector overload of [load_so] walks the whole of [libs] and
    the whole of [plugins], not only what the call added.  After
    [load_plugin_factory] has built and started instance 5, a call of the
    vector overload with one path builds instance 6 and calls [start()] on
    5 again; after a first vector load of ["a.so"], a second one with
    ["b.so"] invokes the factory of ["a.so"] a second time and starts the
    first instance a second time. *)
Theorem load_so_vec_restarts_plugins :
  let w1 := final_world (boot false [OpLoadPluginFactory factory_A; OpLoadSoVec ["b.so"]]
                           (init_world sample_disk)) in
  let w2 := final_world (boot false [OpLoadSoVec ["a.so"]; OpLoadSoVec ["b.so"]]
                           (init_world sample_disk)) in
  created (trace w1) = [5; 6] ∧ started (trace w1) = [5; 5; 6] ∧
  start_count 5 (trace w1) = 2 ∧
  created (trace w2) = [5; 6; 7] ∧ started (trace w2) = [5; 5; 6; 7] ∧
  start_count 5 (trace w2) = 2.
Proof. vm_compute. done. Qed.

(** * The offload_data plugin *)

(** ** Construction *)

Lemma offload_data_new_eq env name_ id_ (pb_ : phonebook) inst w :
  pb_ !! "switchboard" = Some inst →
  ∃ od, offload_data_new env name_ id_ pb_ w
          = Ret od (adv 0 [EvSchedule inst id_ "texture_pose"] w) ∧
        sb od = inst ∧ _offload_data_container od = [] ∧ _time_seq od = [].
Proof.
  intros Hsb. unfold offload_data_new, bind, lookup_impl. rewrite Hsb.
  eexists. split; [reflexivity|]. done.
Qed.

(** C7.  A capability registered with [register_impl] stays bound to the
    instance it was registered with: whatever plugin constructors do to the
    registry afterwards (a second registration of the capability is fatal,
    so a run that returns has none), every later lookup returns that
    instance and leaves the world as it is.  The [offload_data] constructor
    stores in [sb] whatever instance the registry it is handed binds to the
    switchboard, and ends the process when there is none; so after a
    registration of any instance as the switchboard and any further
    registry accesses it holds exactly that instance, and, run against the
    registry of an orchestrator after any sequence of operations, the
    instance that the constructor of [runtime_impl] registered. *)
Theorem lookup_returns_registered :
  (∀ cap inst (pb0 pb1 pb2 : phonebook) acts w w1 w2,
     register_impl cap inst pb0 w = Ret pb1 w1 →
     run_ctor acts pb1 w1 = Ret pb2 w2 →
     pb0 !! cap = None ∧ ∀ w3, lookup_impl cap pb2 w3 = Ret inst w3) ∧
  (∀ mc ops d this w env name_ id_,
     boot mc ops (init_world d) = Ret this w →
     ∃ inst od,
       EvRegister "switchboard" inst ∈ ctor_events mc ∧
       (∀ w3, lookup_impl "switchboard" (pb this) w3 = Ret inst w3) ∧
       offload_data_new env name_ id_ (pb this) w
         = Ret od (adv 0 [EvSchedule inst id_ "texture_pose"] w) ∧
       sb od = inst) ∧
  (∀ env name_ id_ (pb_ : phonebook) w,
     match pb_ !! "switchboard" with
     | Some inst =>
         ∃ od, offload_data_new env name_ id_ pb_ w
                 = Ret od (adv 0 [EvSchedule inst id_ "texture_pose"] w) ∧
               sb od = inst
     | None =>
         ∃ why, offload_data_new env name_ id_ pb_ w
                  = Died (adv 0 [EvFatal why; EvAbort] w)
     end) ∧
  (∀ inst (pb0 pb1 pb2 : phonebook) acts w w1 w2 env name_ id_,
     register_impl "switchboard" inst pb0 w = Ret pb1 w1 →
     run_ctor acts pb1 w1 = Ret pb2 w2 →
     ∃ od, offload_data_new env name_ id_ pb2 w2
             = Ret od (adv 0 [EvSchedule inst id_ "texture_pose"] w2) ∧
           sb od = inst).
Proof.
  assert (∀ cap inst (pb0 pb1 pb2 : phonebook) acts w w1 w2,
     register_impl cap inst pb0 w = Ret pb1 w1 →
     run_ctor acts pb1 w1 = Ret pb2 w2 →
     pb0 !! cap = None ∧ pb2 !! cap = Some inst) as Hreg.
  { intros cap inst pb0 pb1 pb2 acts w w1 w2 Hr Hc.
    pose proof (wp_Ret _ _ _ _ _ _ (register_impl_spec cap inst pb0 w) Hr)
      as (Hn & -> & _).
    pose proof (wp_Ret _ _ _ _ _ _ (run_ctor_spec acts _ w1) Hc) as [Hsub _].
    split; [done|]. eapply lookup_weaken; [|exact Hsub]. apply lookup_insert_eq. }
  split; [|split; [|split]].
  - intros cap inst pb0 pb1 pb2 acts w w1 w2 Hr Hc.
    destruct (Hreg _ _ _ _ _ _ _ _ _ Hr Hc) as [Hn Hl].
    split; [done|]. intros w3. unfold lookup_impl. by rewrite Hl.
  - intros mc ops d this w env name_ id_ Hb.
    pose proof (wp_Ret _ _ _ _ _ _ (boot_spec mc ops d) Hb) as (Hsub & _).
    assert (pb this !! "switchboard" = Some 2) as Hsb.
    { eapply lookup_weaken; [|exact Hsub]. done. }
    destruct (offload_data_new_eq env name_ id_ _ _ w Hsb) as (od & Hnew & Hod & _).
    exists 2, od. split; [|split; [|by split]].
    + unfold ctor_events. apply elem_of_app. right. do 2 right. by left.
    + intros w3. unfold lookup_impl. by rewrite Hsb.
  - intros env name_ id_ pb_ w. destruct (pb_ !! "switchboard") as [inst|] eqn:Hsb.
    + destruct (offload_data_new_eq env name_ id_ _ _ w Hsb) as (od & Hnew & Hod & _).
      by exists od.
    + unfold offload_data_new, bind, lookup_impl. rewrite Hsb.
      eexists. unfold fatal, bind, emit, abort. by rewrite adv_adv.
  - intros inst pb0 pb1 pb2 acts w w1 w2 env name_ id_ Hr Hc.
    destruct (Hreg _ _ _ _ _ _ _ _ _ Hr Hc) as [_ Hl].
    destruct (offload_data_new_eq env name_ id_ _ _ w2 Hl) as (od & Hnew & Hod & _).
    by exists od.
Qed.

Lemma lookup_returns_registered_witness :
  (register_impl "clock" 7 ∅ (init_world ∅)
     = Ret {["clock" := 7]} (adv 0 [EvRegister "clock" 7] (init_world ∅)) ∧
   ∀ w3, lookup_impl "clock" {["clock" := 7]} w3 = Ret 7 w3) ∧
  (boot false sample_ops_1 (init_world sample_disk) = Ret sample_run_1.1 sample_run_1.2 ∧
   ∃ inst od,
     EvRegister "switchboard" inst ∈ ctor_events false ∧
     (∀ w3, lookup_impl "switchboard" (pb sample_run_1.1) w3 = Ret inst w3) ∧
     offload_data_new (sample_env (λ _, true)) "offload_data" 1 (pb sample_run_1.1)
       sample_run_1.2
       = Ret od (adv 0 [EvSchedule inst 1 "texture_pose"] sample_run_1.2) ∧
     sb od = inst) ∧
  (register_impl "switchboard" 7 ∅ (init_world ∅)
     = Ret {["switchboard" := 7]} (adv 0 [EvRegister "switchboard" 7] (init_world ∅)) ∧
   ∃ od,
     offload_data_new (sample_env (λ _, true)) "offload_data" 1 {["switchboard" := 7]}
       (adv 0 [EvRegister "switchboard" 7] (init_world ∅))
       = Ret od (adv 0 [EvSchedule 7 1 "texture_pose"]
                   (adv 0 [EvRegister "switchboard" 7] (init_world ∅))) ∧
     sb od = 7).
Proof.
  destruct lookup_returns_registered as (H1 & H2 & _ & H4).
  assert (register_impl "clock" 7 ∅ (init_world ∅)
     = Ret {["clock" := 7]} (adv 0 [EvRegister "clock" 7] (init_world ∅))) as Hr
    by reflexivity.
  assert (register_impl "switchboard" 7 ∅ (init_world ∅)
     = Ret {["switchboard" := 7]} (adv 0 [EvRegister "switchboard" 7] (init_world ∅)))
    as Hs by reflexivity.
  split; [split; [exact Hr|]|split; [split|split; [exact Hs|]]].
  - eapply (H1 _ _ _ _ _ []); [exact Hr|reflexivity].
  - vm_compute; reflexivity.
  - apply (H2 false sample_ops_1 sample_disk). vm_compute; reflexivity.
  - eapply (H4 _ _ _ _ []); [exact Hs|reflexivity].
Defined.

(** * Further properties of the offload_data plugin *)

(** ** Sorting the times *)

Lemma sort_insert_perm comp x l : sort_insert comp x l ≡ₚ x :: l.
Proof.
  induction l as [|y l IH]; simpl; [done|].
  destruct (comp y x); [|done]. rewrite IH. apply Permutation_swap.
Qed.

Lemma sort_perm comp l : sort comp l ≡ₚ l.
Proof.
  induction l as [|x l IH]; simpl; [done|]. by rewrite sort_insert_perm, IH.
Qed.

Lemma sort_insert_sorted x l :
  StronglySorted int_ge l → StronglySorted int_ge (sort_insert int_gt x l).
Proof.
  induction 1 as [|y l Hs IH Hy]; simpl.
  - by repeat constructor.
  - unfold int_gt at 1. destruct (to_int x <? to_int y)%Z eqn:E.
    + constructor; [done|]. rewrite sort_insert_perm.
      constructor; [|done]. unfold int_ge. lia.
    + constructor; [by constructor|]. constructor; [unfold int_ge; lia|].
      eapply Forall_impl; [exact Hy|]. unfold int_ge. intros; lia.
Qed.

Lemma sort_sorted l : StronglySorted int_ge (sort int_gt l).
Proof.
  induction l as [|x l IH]; simpl; [constructor|]. by apply sort_insert_sorted.
Qed.

Lemma to_int_in_int x : in_int x → to_int x = x.
Proof.
  unfold in_int, to_int. intros H.
  rewrite Z.mod_small by lia. lia.
Qed.

Lemma StronglySorted_ext {A} (R1 R2 : A → A → Prop) (P : A → Prop) l :
  Forall P l → (∀ a b, P a → P b → R1 a b → R2 a b) →
  StronglySorted R1 l → StronglySorted R2 l.
Proof.
  intros HP HR. induction 1 as [|x l Hs IH Hx]; [constructor|].
  apply Forall_cons in HP as [Hpx HP]. constructor; [by apply IH|].
  rewrite Forall_forall in *. intros y Hy. apply HR; auto.
Qed.

(** X1.  The "ordered time" list is a rearrangement of the raw times,
    ordered by descending value of the times truncated to [int]; when every
    time fits in an [int] it is in descending order. *)
Theorem ordered_times_sorted (l : list long) :
  sort int_gt l ≡ₚ l ∧
  StronglySorted int_ge (sort int_gt l) ∧
  (Forall in_int l → StronglySorted (λ a b, (b ≤ a)%Z) (sort int_gt l)).
Proof.
  split; [apply sort_perm|]. split; [apply sort_sorted|].
  intros Hin. eapply (StronglySorted_ext int_ge _ in_int).
  - by rewrite sort_perm.
  - intros a b Ha Hb. unfold int_ge. by rewrite !to_int_in_int.
  - apply sort_sorted.
Qed.

Lemma ordered_times_sorted_witness :
  Forall in_int [5; 3; 9]%Z ∧
  StronglySorted (λ a b, (b ≤ a)%Z) (sort int_gt [5; 3; 9]%Z).
Proof.
  assert (Forall in_int [5; 3; 9]%Z) as H
    by (repeat constructor; unfold in_int; lia).
  split; [exact H|]. by apply (ordered_times_sorted [5; 3; 9]%Z).
Defined.

(** ** Extremes *)

Lemma max_element_go_spec l : ∀ pre best bestv,
  (pre ++ l) !! best = Some bestv →
  (∀ x, x ∈ pre → (x ≤ bestv)%Z) →
  (∀ j y, j < best → (pre ++ l) !! j = Some y → (y < bestv)%Z) →
  ∃ v, (pre ++ l) !! max_element_go l (length pre) best bestv = Some v ∧
       (∀ x, x ∈ pre ++ l → (x ≤ v)%Z) ∧
       (∀ j y, j < max_element_go l (length pre) best bestv →
               (pre ++ l) !! j = Some y → (y < v)%Z).
Proof.
  induction l as [|x l IH]; intros pre best bestv Hb Hle Hlt; simpl.
  - exists bestv. rewrite app_nil_r in *. auto.
  - assert (pre ++ x :: l = (pre ++ [x]) ++ l) as E by by rewrite <- app_assoc.
    assert (S (length pre) = length (pre ++ [x])) as El
      by (rewrite length_app; simpl; lia).
    rewrite El, E in *. destruct (bestv <? x)%Z eqn:Ex.
    + apply IH.
      * rewrite <- E. by apply list_lookup_middle.
      * intros y Hy. apply elem_of_app in Hy as [Hy|Hy].
        -- specialize (Hle _ Hy). lia.
        -- apply list_elem_of_singleton in Hy as ->. lia.
      * intros j y Hj Hy. rewrite <- app_assoc in Hy.
        rewrite lookup_app_l in Hy by done.
        assert (y ∈ pre) as Hin by (by eapply list_elem_of_lookup_2).
        specialize (Hle _ Hin). lia.
    + apply IH; [done| |done].
      intros y Hy. apply elem_of_app in Hy as [Hy|Hy]; [by apply Hle|].
      apply list_elem_of_singleton in Hy as ->. lia.
Qed.

Lemma min_element_go_spec l : ∀ pre best bestv,
  (pre ++ l) !! best = Some bestv →
  (∀ x, x ∈ pre → (bestv ≤ x)%Z) →
  (∀ j y, j < best → (pre ++ l) !! j = Some y → (bestv < y)%Z) →
  ∃ v, (pre ++ l) !! min_element_go l (length pre) best bestv = Some v ∧
       (∀ x, x ∈ pre ++ l → (v ≤ x)%Z) ∧
       (∀ j y, j < min_element_go l (length pre) best bestv →
               (pre ++ l) !! j = Some y → (v < y)%Z).
Proof.
  induction l as [|x l IH]; intros pre best bestv Hb Hle Hlt; simpl.
  - exists bestv. rewrite app_nil_r in *. auto.
  - assert (pre ++ x :: l = (pre ++ [x]) ++ l) as E by by rewrite <- app_assoc.
    assert (S (length pre) = length (pre ++ [x])) as El
      by (rewrite length_app; simpl; lia).
    rewrite El, E in *. destruct (x <? bestv)%Z eqn:Ex.
    + apply IH.
      * rewrite <- E. by apply list_lookup_middle.
      * intros y Hy. apply elem_of_app in Hy as [Hy|Hy].
        -- specialize (Hle _ Hy). lia.
        -- apply list_elem_of_singleton in Hy as ->. lia.
      * intros j y Hj Hy. rewrite <- app_assoc in Hy.
        rewrite lookup_app_l in Hy by done.
        assert (y ∈ pre) as Hin by (by eapply list_elem_of_lookup_2).
        specialize (Hle _ Hin). lia.
    + apply IH; [done| |done].
      intros y Hy. apply elem_of_app in Hy as [Hy|Hy]; [by apply Hle|].
      apply list_elem_of_singleton in Hy as ->. lia.
Qed.

Lemma max_element_spec (l : list long) :
  l ≠ [] →
  ∃ v, l !! max_element l = Some v ∧ (∀ x, x ∈ l → (x ≤ v)%Z) ∧
       (∀ j y, j < max_element l → l !! j = Some y → (y < v)%Z).
Proof.
  destruct l as [|x l]; [done|]. intros _. simpl.
  apply (max_element_go_spec l [x] 0 x); [done| |lia].
  intros y Hy. apply list_elem_of_singleton in Hy as ->. lia.
Qed.

Lemma min_element_spec (l : list long) :
  l ≠ [] →
  ∃ v, l !! min_element l = Some v ∧ (∀ x, x ∈ l → (v ≤ x)%Z) ∧
       (∀ j y, j < min_element l → l !! j = Some y → (v < y)%Z).
Proof.
  destruct l as [|x l]; [done|]. intros _. simpl.
  apply (min_element_go_spec l [x] 0 x); [done| |lia].
  intros y Hy. apply list_elem_of_singleton in Hy as ->. lia.
Qed.

(** ** writeMetadata *)

Lemma writeMetadata_nonempty env dir (seq : list long) :
  seq ≠ [] → is_open env (dir +:+ "metadata.out") = true →
  ∃ c, writeMetadata env dir seq = ([WriteFile (dir +:+ "metadata.out") c], Finished tt).
Proof.
  intros Hne Hopen.
  destruct (max_element_spec seq Hne) as (vmax & Hmax & _).
  destruct (min_element_spec seq Hne) as (vmin & Hmin & _).
  eexists. unfold writeMetadata. unfold long in *.
  by rewrite Hopen, Hmax, Hmin.
Qed.

Lemma metadata_toks_head (l : list long) max min :
  metadata_toks l max min = metadata_head l max min ++ times_toks (sort int_gt l).
Proof. unfold metadata_toks, metadata_head. by rewrite <- !app_assoc. Qed.

(** X2.  For a non-empty sequence whose metadata file opens,
    [writeMetadata] writes that one file and nothing else.  The file holds
    the mean, max, min, stdev and count lines and the raw times, followed
    by the times again in some order that is a rearrangement of them,
    descending by their value as [int]; the "max" and "min" lines carry
    elements of the sequence that bound every element, read at the first
    position where the greatest (least) value occurs. *)
Theorem writeMetadata_extremes env dir (seq : list long) :
  seq ≠ [] → is_open env (dir +:+ "metadata.out") = true →
  ∃ vmax vmin ordered,
    writeMetadata env dir seq =
      ([WriteFile (dir +:+ "metadata.out")
          (FText (metadata_head seq vmax vmin ++ times_toks ordered))],
       Finished tt) ∧
    ordered ≡ₚ seq ∧ StronglySorted int_ge ordered ∧
    seq !! max_element seq = Some vmax ∧ seq !! min_element seq = Some vmin ∧
    (∀ x, x ∈ seq → (vmin ≤ x ≤ vmax)%Z) ∧
    (∀ j y, j < max_element seq → seq !! j = Some y → (y < vmax)%Z) ∧
    (∀ j y, j < min_element seq → seq !! j = Some y → (vmin < y)%Z).
Proof.
  intros Hne Hopen.
  destruct (max_element_spec seq Hne) as (vmax & Hmax & Hub & Hfirst).
  destruct (min_element_spec seq Hne) as (vmin & Hmin & Hlb & Hfirst').
  exists vmax, vmin, (sort int_gt seq). rewrite <- metadata_toks_head.
  unfold writeMetadata. unfold long in *.
  rewrite Hopen, Hmax, Hmin.
  split; [done|]. split; [apply sort_perm|]. split; [apply sort_sorted|].
  repeat split; try done; [by apply Hlb|by apply Hub].
Qed.

Lemma writeMetadata_extremes_witness :
  ∃ vmax vmin ordered,
    writeMetadata (sample_env (λ _, true)) "out/" [5; 9; 3; 9]%Z =
      ([WriteFile "out/metadata.out"
          (FText (metadata_head [5; 9; 3; 9]%Z vmax vmin ++ times_toks ordered))],
       Finished tt) ∧
    ordered ≡ₚ [5; 9; 3; 9]%Z ∧
    vmax = 9%Z ∧ vmin = 3%Z ∧ max_element [5; 9; 3; 9]%Z = 1.
Proof.
  destruct (writeMetadata_extremes (sample_env (λ _, true)) "out/" [5; 9; 3; 9]%Z)
    as (vmax & vmin & ordered & Hw & Hp & _ & Hmax & Hmin & _); [done|reflexivity|].
  exists vmax, vmin, ordered. split; [exact Hw|]. split; [exact Hp|].
  vm_compute in Hmax, Hmin. injection Hmax as <-. injection Hmin as <-. done.
Defined.

Lemma writeMetadata_closed env dir (seq : list long) :
  is_open env (dir +:+ "metadata.out") = false →
  writeMetadata env dir seq = ([], Finished tt).
Proof. intros Ho. unfold writeMetadata. by rewrite Ho. Qed.

Lemma writeMetadata_undefined env dir (seq : list long) :
  (writeMetadata env dir seq).2 = Undefined ↔
    seq = [] ∧ is_open env (dir +:+ "metadata.out") = true.
Proof.
  split.
  - intros Hu. destruct (is_open env (dir +:+ "metadata.out")) eqn:Ho.
    + split; [|done]. destruct seq as [|x seq]; [done|]. exfalso.
      destruct (writeMetadata_nonempty env dir (x :: seq)) as (c & Hw); [done..|].
      by rewrite Hw in Hu.
    + by rewrite writeMetadata_closed in Hu.
  - intros [-> Ho]. unfold writeMetadata. by rewrite Ho.
Qed.

(** X3.  [writeMetadata] reads out of bounds exactly when it is given an
    empty sequence and the metadata file opens: [max_element] and
    [min_element] then return the end iterator, which is dereferenced.
    When the file does not open nothing is written and nothing is read. *)
Theorem writeMetadata_undefined_iff env dir (seq : list long) :
  ((writeMetadata env dir seq).2 = Undefined ↔
     seq = [] ∧ is_open env (dir +:+ "metadata.out") = true) ∧
  (is_open env (dir +:+ "metadata.out") = false →
     writeMetadata env dir seq = ([], Finished tt)) ∧
  max_element [] = length (@nil long) ∧ min_element [] = length (@nil long).
Proof.
  split; [|split; [|done]].
  - split.
    + intros Hu. destruct (is_open env (dir +:+ "metadata.out")) eqn:Ho.
      * split; [|done]. destruct seq as [|x seq]; [done|]. exfalso.
        destruct (max_element_spec (x :: seq)) as (vmax & Hmax & _); [done|].
        destruct (min_element_spec (x :: seq)) as (vmin & Hmin & _); [done|].
        unfold writeMetadata in Hu. unfold long in *.
        by rewrite Ho, Hmax, Hmin in Hu.
      * unfold writeMetadata in Hu. by rewrite Ho in Hu.
    + intros [-> Ho]. unfold writeMetadata. by rewrite Ho.
  - intros Ho. unfold writeMetadata. by rewrite Ho.
Qed.

Lemma writeMetadata_undefined_iff_witness :
  (writeMetadata (sample_env (λ _, true)) "out/" []).2 = Undefined ∧
  writeMetadata
    {| getenv_or := λ _ default, default; str_to_bool := λ _, true;
       FB_WIDTH := 1; FB_HEIGHT := 1; RAC_ERRNO_MSG := λ _, []; NDEBUG := true;
       stbi_write_png := λ _ _, true; is_open := λ _, false |} "out/" [4%Z]
    = ([], Finished tt).
Proof.
  split; [reflexivity|].
  by apply (writeMetadata_undefined_iff _ "out/" [4%Z]).
Defined.

(** X4.  With fewer than 2^64 times, the mean is divided by zero exactly
    for the empty sequence, and the sum of squares under the root is
    divided by zero exactly for a sequence of one time; for the empty
    sequence that divisor, [size() - 1] in [size_t], wraps to 2^64 - 1. *)
Theorem divisors_zero (l : list long) :
  (Z.of_nat (length l) < two64)%Z →
  (mean_divisor l = 0%Z ↔ l = []) ∧
  (stdev_divisor l = 0%Z ↔ length l = 1) ∧
  (l = [] → stdev_divisor l = (two64 - 1)%Z) ∧
  mean_of l = DDiv (accumulate l) (DOfSize (mean_divisor l)) ∧
  stdev_of l = DSqrt (DDiv (accum_of l) (DOfSize (stdev_divisor l))).
Proof.
  intros Hlen. unfold mean_divisor, stdev_divisor, two64 in *.
  split; [|split; [|split; [|done]]].
  - split; [|by intros ->]. destruct l; [done|simpl; lia].
  - destruct l as [|x l]; simpl length in *.
    + split; [|done]. vm_compute. discriminate.
    + rewrite Z.mod_small by lia. lia.
  - intros ->. reflexivity.
Qed.

Lemma divisors_zero_witness :
  (Z.of_nat (length [7%Z]) < two64)%Z ∧
  mean_divisor [7%Z] = 1%Z ∧ stdev_divisor [7%Z] = 0%Z.
Proof.
  assert (Z.of_nat (length [7%Z]) < two64)%Z as H by (vm_compute; reflexivity).
  split; [exact H|]. split; [reflexivity|].
  by apply (divisors_zero [7%Z] H).
Defined.

(** ** The loop of writeDataToDisk *)

Lemma pbind_eq {A B} (m : plug A) (k : A → plug B) e1 a e2 r :
  m = (e1, Finished a) → k a = (e2, r) → pbind m k = (e1 ++ e2, r).
Proof. intros -> Hk. unfold pbind. by rewrite Hk. Qed.

Lemma write_one_fail env n this it :
  stbi_write_png env (image_file (obj_dir this) (img_idx this)) (image it) = false →
  write_one env n this it = ([Report "Image create failed !!! "], OperationAborted).
Proof. intros H. unfold write_one. simpl. by rewrite H. Qed.

Lemma write_one_ok env n this it :
  stbi_write_png env (image_file (obj_dir this) (img_idx this)) (image it) = true →
  ∃ this',
    write_one env n this it =
      (WriteFile (image_file (obj_dir this) (img_idx this))
                 (FPng (FB_WIDTH env) (FB_HEIGHT env) 3 (image it))
         :: pose_effects env (obj_dir this) (img_idx this) it ++
         [Cout (progress_toks (100 * (img_idx this + 1) / n)%Z (img_idx this) n)],
       Finished this') ∧
    obj_dir this' = obj_dir this ∧
    img_idx this' = (img_idx this + 1)%Z ∧
    percent this' = (100 * (img_idx this + 1) / n)%Z ∧
    _time_seq this' = _time_seq this ++ [offload_duration it] ∧
    _offload_data_container this' = _offload_data_container this ∧
    enable_offload this' = enable_offload this.
Proof.
  intros H. eexists. unfold write_one, pose_effects. simpl. rewrite H. simpl.
  destruct (is_open env (pose_file (obj_dir this) (img_idx this))); simpl;
    (split; [reflexivity|done]).
Qed.

Lemma Forall_is_dir_op_pose env dir idx it :
  Forall (λ e, is_dir_op e = false) (pose_effects env dir idx it).
Proof. unfold pose_effects. destruct (is_open _ _); by repeat constructor. Qed.

Lemma png_writes_app e1 e2 : png_writes (e1 ++ e2) = png_writes e1 ++ png_writes e2.
Proof.
  induction e1 as [|e e1 IH]; [done|]. destruct e as [| | | |f []|]; simpl; by rewrite ?IH.
Qed.

Lemma png_writes_pose env dir idx it : png_writes (pose_effects env dir idx it) = [].
Proof. unfold pose_effects. by destruct (is_open _ _). Qed.

(** The loop either completes, or ends at the first image whose encoding
    fails; it never reads out of bounds and never removes or creates a
    directory. *)
Lemma write_all_spec env n container : ∀ this,
  ∃ effs r,
    write_all env n this container = (effs, r) ∧
    Forall (λ e, is_dir_op e = false) effs ∧
    match r with
    | Finished this' =>
        obj_dir this' = obj_dir this ∧
        img_idx this' = (img_idx this + Z.of_nat (length container))%Z ∧
        _time_seq this' = _time_seq this ++ (offload_duration <$> container) ∧
        _offload_data_container this' = _offload_data_container this ∧
        enable_offload this' = enable_offload this ∧
        (container ≠ [] →
           percent this' = (100 * (img_idx this + Z.of_nat (length container)) / n)%Z) ∧
        png_writes effs = numbered_images (obj_dir this) (img_idx this) container ∧
        (∀ i it, container !! i = Some it →
           stbi_write_png env (image_file (obj_dir this) (img_idx this + Z.of_nat i))
             (image it) = true)
    | OperationAborted =>
        ∃ i it, container !! i = Some it ∧
          stbi_write_png env (image_file (obj_dir this) (img_idx this + Z.of_nat i))
            (image it) = false ∧
          png_writes effs = numbered_images (obj_dir this) (img_idx this) (take i container)
    | Undefined => False
    end.
Proof.
  induction container as [|it rest IH]; intros this; simpl.
  - eexists _, _. split; [reflexivity|]. split; [constructor|]. simpl.
    rewrite Z.add_0_r, app_nil_r. repeat split; try done.
  - destruct (stbi_write_png env (image_file (obj_dir this) (img_idx this)) (image it))
      eqn:Hpng.
    + destruct (write_one_ok env n this it Hpng)
        as (this1 & H1 & Hd & Hi & Hp & Ht & Hc & He).
      destruct (IH this1) as (effs & r & Hr & Hf & Hpost).
      eexists _, r. split; [by apply (pbind_eq _ _ _ _ _ _ H1 Hr)|]. split.
      * constructor; [done|]. apply Forall_app. split; [|done].
        apply Forall_app. split; [apply Forall_is_dir_op_pose|by constructor].
      * simpl. rewrite !png_writes_app, png_writes_pose. simpl.
        rewrite Hd, Hi, Ht in Hpost. destruct r as [this2| |]; [| |done].
        -- destruct Hpost as (Hd2 & Hi2 & Ht2 & Hc2 & He2 & Hp2 & Hw2 & Hok).
           rewrite Hd2, Hi2, Ht2, Hc2, He2, Hw2, Hc, He.
           split; [done|]. split; [lia|]. split; [by rewrite <- app_assoc|].
           split; [done|]. split; [done|]. split; [|split; [done|]].
           ++ intros _. destruct rest as [|it' rest'].
              ** injection Hr as <- <-. rewrite Hp. done.
              ** rewrite Hp2 by done. f_equal. f_equal. simpl length. lia.
           ++ intros [|i] jt Hj; simpl in Hj.
              ** injection Hj as <-. by rewrite Z.add_0_r.
              ** specialize (Hok _ _ Hj). rewrite <- Hok. f_equal. f_equal. lia.
        -- destruct Hpost as (i & jt & Hj & Hfail & Hw2).
           exists (S i), jt. split; [done|]. split.
           ++ rewrite <- Hfail. f_equal. f_equal. lia.
           ++ simpl. by rewrite Hw2.
    + rewrite (write_one_fail env n this it Hpng).
      eexists _, _. split; [reflexivity|]. split; [by repeat constructor|].
      exists 0, it. split; [done|]. rewrite Z.add_0_r. done.
Qed.

(** ** writeDataToDisk *)

Lemma writeDataToDisk_eq env this container effs r :
  write_all env (Z.of_nat (length container)) (set_img_idx 0 this) container = (effs, r) →
  writeDataToDisk env this container =
    match r with
    | Finished this' =>
        (disk_prologue ++ effs ++ [Cout [TEndl]] ++
           (writeMetadata env (obj_dir this') (_time_seq this')).1,
         match (writeMetadata env (obj_dir this') (_time_seq this')).2 with
         | Finished _ => Finished this'
         | OperationAborted => OperationAborted
         | Undefined => Undefined
         end)
    | OperationAborted => (disk_prologue ++ effs, OperationAborted)
    | Undefined => (disk_prologue ++ effs, Undefined)
    end.
Proof.
  intros Hw. unfold writeDataToDisk, pbind. simpl. rewrite Hw.
  destruct r as [this'| |]; simpl; [|done..].
  destruct (writeMetadata env (obj_dir this') (_time_seq this')) as [e [[]| |]];
    simpl; by rewrite ?app_nil_r.
Qed.

Lemma png_writes_metadata env dir seq : png_writes (writeMetadata env dir seq).1 = [].
Proof.
  unfold writeMetadata. by repeat case_match.
Qed.

(** X5.  When every image of a non-empty container is encoded (and
    [100 * (img_idx + 1)] stays within an [int]), [writeDataToDisk]
    finishes: the images are written under the names [0.png], [1.png], ...
    in the order of the container, whatever [img_idx] was before; one time
    per element is appended to [_time_seq] in that order; [img_idx] ends as
    the number of elements and [percent] as 100. *)
Theorem writeDataToDisk_success env this container :
  container ≠ [] →
  (100 * Z.of_nat (length container) < 2 ^ 31)%Z →
  (∀ i it, container !! i = Some it →
     stbi_write_png env (image_file (obj_dir this) (Z.of_nat i)) (image it) = true) →
  ∃ effs this',
    writeDataToDisk env this container = (effs, Finished this') ∧
    png_writes effs = numbered_images (obj_dir this) 0 container ∧
    _time_seq this' = _time_seq this ++ (offload_duration <$> container) ∧
    img_idx this' = Z.of_nat (length container) ∧
    percent this' = 100%Z ∧
    obj_dir this' = obj_dir this.
Proof.
  intros Hne _ Hok.
  destruct (write_all_spec env (Z.of_nat (length container)) container (set_img_idx 0 this))
    as (effs & r & Hw & _ & Hpost).
  rewrite (writeDataToDisk_eq _ _ _ _ _ Hw). simpl in Hpost.
  destruct r as [this'| |]; [| |done].
  - destruct Hpost as (Hd & Hi & Ht & _ & _ & Hp & Hpng & _).
    assert (_time_seq this' ≠ []) as Hseq.
    { rewrite Ht. destruct container; [done|]. intros H.
      apply app_eq_nil in H as [_ H]. done. }
    assert ((writeMetadata env (obj_dir this') (_time_seq this')).2 = Finished tt) as Hm.
    { destruct (is_open env (obj_dir this' +:+ "metadata.out")) eqn:Ho.
      - destruct (writeMetadata_nonempty env _ _ Hseq Ho) as (c & ->). done.
      - by rewrite writeMetadata_closed. }
    rewrite Hm. eexists _, this'. split; [reflexivity|].
    rewrite !png_writes_app, png_writes_metadata. simpl. rewrite app_nil_r.
    repeat split; try done.
    rewrite Hp by done. simpl. apply Z.div_mul.
    destruct container; [done|simpl; lia].
  - destruct Hpost as (i & it & Hi & Hfail & _). simpl in Hfail.
    rewrite ?Z.add_0_l in Hfail. by rewrite (Hok _ _ Hi) in Hfail.
Qed.

Lemma writeDataToDisk_success_witness :
  ∃ effs this',
    writeDataToDisk (sample_env (λ _, true)) (sample_plugin true [])
      [sample_pose 5%Z 7; sample_pose 3%Z 8] = (effs, Finished this') ∧
    png_writes effs = [("out/0.png", 7); ("out/1.png", 8)] ∧
    _time_seq this' = [5; 3]%Z ∧ img_idx this' = 2%Z ∧ percent this' = 100%Z.
Proof.
  destruct (writeDataToDisk_success (sample_env (λ _, true)) (sample_plugin true [])
              [sample_pose 5%Z 7; sample_pose 3%Z 8])
    as (effs & this' & Hw & Hp & Ht & Hi & Hc & _);
    [done|vm_compute; reflexivity|done|].
  exists effs, this'. split; [exact Hw|].
  split; [exact Hp|]. split; [exact Ht|]. split; [exact Hi|exact Hc].
Defined.

Lemma write_all_bars env n container : ∀ this,
  (0 ≤ img_idx this)%Z → (img_idx this + Z.of_nat (length container) ≤ n)%Z →
  bars_bounded (write_all env n this container).1.
Proof.
  induction container as [|it rest IH]; intros this H0 Hn; simpl.
  - intros toks k c Hin. by apply elem_of_nil in Hin.
  - simpl length in Hn.
    destruct (stbi_write_png env (image_file (obj_dir this) (img_idx this)) (image it))
      eqn:Hpng.
    + destruct (write_one_ok env n this it Hpng) as (this1 & H1 & _ & Hi & _).
      assert (bars_bounded (write_all env n this1 rest).1) as IH'
        by (apply IH; lia).
      destruct (write_all env n this1 rest) as [effs r] eqn:Hr.
      rewrite (pbind_eq _ _ _ _ _ _ H1 Hr). simpl.
      intros toks k c Hin Hk.
      apply elem_of_cons in Hin as [Hin|Hin]; [done|].
      apply elem_of_app in Hin as [Hin|Hin]; [|by eapply IH'].
      apply elem_of_app in Hin as [Hin|Hin].
      * unfold pose_effects in Hin. destruct (is_open _ _).
        -- by apply list_elem_of_singleton in Hin.
        -- by apply elem_of_nil in Hin.
      * apply list_elem_of_singleton in Hin. injection Hin as ->.
        assert (0 ≤ 100 * (img_idx this + 1) / n ≤ 100)%Z as Hp.
        { split; [apply Z.div_pos; lia|].
          apply Z.div_le_upper_bound; lia. }
        assert (0 ≤ 100 * (img_idx this + 1) / n / 2 ≤ 50)%Z as Hh.
        { split; [apply Z.div_pos; lia|]. apply Z.div_le_upper_bound; lia. }
        unfold progress_toks in Hk.
        repeat (apply elem_of_cons in Hk as [Hk|Hk];
                [try done; injection Hk as -> _;
                 change (100 / 2)%Z with 50%Z; lia|]).
        by apply elem_of_nil in Hk.
    + rewrite (write_one_fail env n this it Hpng). simpl.
      intros toks k c Hin. by apply list_elem_of_singleton in Hin.
Qed.

(** X6.  While [100 * (img_idx + 1)] fits in an [int], every progress bar
    [writeDataToDisk] prints is built from two fills whose lengths lie
    between 0 and 50: neither [std::string] is asked for a negative
    length, whether the run completes or ends at a failing image. *)
Theorem progress_bar_bounded env this container :
  (100 * Z.of_nat (length container) < 2 ^ 31)%Z →
  bars_bounded (writeDataToDisk env this container).1.
Proof.
  intros _.
  pose proof (write_all_bars env (Z.of_nat (length container)) container
                (set_img_idx 0 this)) as Hb.
  destruct (write_all env (Z.of_nat (length container)) (set_img_idx 0 this) container)
    as [effs r] eqn:Hw.
  rewrite (writeDataToDisk_eq _ _ _ _ _ Hw).
  assert (bars_bounded effs) as Hb' by (apply Hb; simpl; lia).
  assert (∀ toks k c, Cout toks ∈ disk_prologue → TFill k c ∈ toks → (0 ≤ k ≤ 50)%Z)
    as Hpre.
  { intros toks k c Hin Hk. unfold disk_prologue in Hin.
    apply elem_of_cons in Hin as [Hin|Hin]; [done|].
    apply list_elem_of_singleton in Hin. injection Hin as ->.
    repeat (apply elem_of_cons in Hk as [Hk|Hk]; [done|]). by apply elem_of_nil in Hk. }
  intros toks k c Hin Hk. destruct r as [this'| |]; simpl in Hin.
  - apply elem_of_cons in Hin as [Hin|Hin]; [done|].
    apply elem_of_cons in Hin as [Hin|Hin].
    { eapply Hpre; [|done]. rewrite Hin. unfold disk_prologue. right. by left. }
    apply elem_of_app in Hin as [Hin|Hin]; [by eapply Hb'|].
    apply elem_of_cons in Hin as [Hin|Hin].
    { injection Hin as ->. apply list_elem_of_singleton in Hk. done. }
    unfold writeMetadata in Hin. repeat case_match; simpl in Hin;
      try (by apply elem_of_nil in Hin); by apply list_elem_of_singleton in Hin.
  - apply elem_of_cons in Hin as [Hin|Hin]; [done|].
    apply elem_of_cons in Hin as [Hin|Hin]; [|by eapply Hb'].
    eapply Hpre; [|done]. rewrite Hin. unfold disk_prologue. right. by left.
  - apply elem_of_cons in Hin as [Hin|Hin]; [done|].
    apply elem_of_cons in Hin as [Hin|Hin]; [|by eapply Hb'].
    eapply Hpre; [|done]. rewrite Hin. unfold disk_prologue. right. by left.
Qed.

Lemma progress_bar_bounded_witness :
  (100 * Z.of_nat (length [sample_pose 5%Z 7; sample_pose 3%Z 8; sample_pose 4%Z 9]) < 2 ^ 31)%Z ∧
  bars_bounded
    (writeDataToDisk (sample_env (λ _, true)) (sample_plugin true [])
       [sample_pose 5%Z 7; sample_pose 3%Z 8; sample_pose 4%Z 9]).1.
Proof.
  assert (100 * Z.of_nat (length [sample_pose 5%Z 7; sample_pose 3%Z 8; sample_pose 4%Z 9])
          < 2 ^ 31)%Z as H by (vm_compute; reflexivity).
  split; [exact H|]. by apply progress_bar_bounded.
Defined.

(** ** callback *)

Lemma callback_spec env datum this :
  ∃ effs this',
    callback env datum this = (effs, Finished this') ∧
    _offload_data_container this' = _offload_data_container this ++ [datum] ∧
    _time_seq this' = _time_seq this ∧
    obj_dir this' = obj_dir this ∧
    enable_offload this' = enable_offload this ∧
    img_idx this' = (if NDEBUG env then img_idx this else img_idx this + 1)%Z.
Proof.
  unfold callback. destruct (NDEBUG env); simpl; eexists _, _;
    (split; [reflexivity|done]).
Qed.

Lemma deliver_spec env events : ∀ this,
  ∃ effs this',
    deliver env events this = (effs, Finished this') ∧
    _offload_data_container this' = _offload_data_container this ++ events ∧
    _time_seq this' = _time_seq this ∧
    obj_dir this' = obj_dir this ∧
    enable_offload this' = enable_offload this.
Proof.
  induction events as [|datum rest IH]; intros this; simpl.
  - eexists _, _. split; [reflexivity|]. by rewrite app_nil_r.
  - destruct (callback_spec env datum this) as (e1 & this1 & H1 & Hc & Ht & Hd & He & _).
    destruct (IH this1) as (e2 & this2 & H2 & Hc2 & Ht2 & Hd2 & He2).
    eexists _, this2. split; [by apply (pbind_eq _ _ _ _ _ _ H1 H2)|].
    by rewrite Hc2, Ht2, Hd2, He2, Hc, Ht, Hd, He, <- app_assoc.
Qed.

(** X7.  The subscriber never fails and never drops or reorders an event:
    after any sequence of deliveries the container holds what it held
    before followed by the events in order of arrival, and the times, the
    output directory and the enable flag are untouched.  In a debug build
    [img_idx] has counted the events, as long as the count stays within
    an [int]; otherwise it is left alone. *)
Theorem deliver_in_order env events : ∀ this,
  (NDEBUG env = false →
     (- 2 ^ 31 ≤ img_idx this)%Z ∧
     (img_idx this + Z.of_nat (length events) < 2 ^ 31)%Z) →
  ∃ effs this',
    deliver env events this = (effs, Finished this') ∧
    _offload_data_container this' = _offload_data_container this ++ events ∧
    _time_seq this' = _time_seq this ∧
    obj_dir this' = obj_dir this ∧
    enable_offload this' = enable_offload this ∧
    img_idx this' =
      (if NDEBUG env then img_idx this else img_idx this + Z.of_nat (length events))%Z.
Proof.
  intros this _. revert this.
  induction events as [|datum rest IH]; intros this; simpl.
  - eexists _, _. split; [reflexivity|]. rewrite app_nil_r.
    repeat split. destruct (NDEBUG env); [done|lia].
  - destruct (callback_spec env datum this) as (e1 & this1 & H1 & Hc & Ht & Hd & He & Hi).
    destruct (IH this1) as (e2 & this2 & H2 & Hc2 & Ht2 & Hd2 & He2 & Hi2).
    eexists _, this2. split; [by apply (pbind_eq _ _ _ _ _ _ H1 H2)|].
    rewrite Hc2, Ht2, Hd2, He2, Hi2, Hc, Ht, Hd, He, Hi, <- app_assoc.
    repeat split. destruct (NDEBUG env); [done|lia].
Qed.

Lemma deliver_in_order_witness :
  ∃ effs this',
    deliver sample_env_debug [sample_pose 5%Z 7; sample_pose 3%Z 8] (sample_plugin true [])
      = (effs, Finished this') ∧
    _offload_data_container this' = [sample_pose 5%Z 7; sample_pose 3%Z 8] ∧
    img_idx this' = 2%Z.
Proof.
  destruct (deliver_in_order sample_env_debug [sample_pose 5%Z 7; sample_pose 3%Z 8]
              (sample_plugin true []))
    as (effs & this' & Hd & Hc & _ & _ & _ & Hi).
  { intros _. split; vm_compute; [discriminate|reflexivity]. }
  exists effs, this'. split; [exact Hd|]. split; [exact Hc|exact Hi].
Defined.

(** ** The destructor *)

Lemma pbind_tell {B} effs (k : unit → plug B) :
  pbind (tell effs) k = (effs ++ (k tt).1, (k tt).2).
Proof. done. Qed.

Lemma delete_undefined_iff env this :
  (offload_data_delete env this).2 = Undefined ↔
    enable_offload this = true ∧ _offload_data_container this = [] ∧
    _time_seq this = [] ∧ is_open env (obj_dir this +:+ "metadata.out") = true.
Proof.
  unfold offload_data_delete. destruct (enable_offload this).
  2: { split; [done|]. by intros [? _]. }
  rewrite pbind_tell. cbn [snd].
  destruct (write_all_spec env (Z.of_nat (length (_offload_data_container this)))
              (_offload_data_container this) (set_img_idx 0 this))
    as (effs & r & Hw & _ & Hpost).
  rewrite (writeDataToDisk_eq _ _ _ _ _ Hw). simpl in Hpost.
  destruct r as [this'| |]; [| |done]; simpl.
  - destruct Hpost as (Hd & _ & Ht & _).
    destruct (writeMetadata_undefined env (obj_dir this') (_time_seq this'))
      as [H1 H2].
    rewrite Hd, Ht in *. split.
    + intros Hu. destruct (writeMetadata env (obj_dir this)
                             (_time_seq this ++ (offload_duration <$> _offload_data_container this)))
        as [e [[]| |]] eqn:Hm; try done.
      destruct (H1 eq_refl) as [Hnil Ho]. apply app_eq_nil in Hnil as [Hs Hc].
      split; [done|]. split; [by apply fmap_nil_inv in Hc|done].
    + intros (_ & Hc & Hs & Ho). rewrite H2; [done|].
      by rewrite Hc, Hs.
  - destruct Hpost as (i & it & Hi & _). split; [done|].
    intros (_ & Hc & _). by rewrite Hc in Hi.
Qed.

(** X8.  Over the life of a plugin (deliveries, then destruction) the only
    out-of-bounds read is the one of [writeMetadata] on an empty sequence:
    it happens exactly when offloading is enabled, no event was ever
    received, no time is pending, and the metadata file opens. *)
Theorem lifetime_undefined_iff env events this :
  (lifetime env events this).2 = Undefined ↔
    enable_offload this = true ∧ _offload_data_container this ++ events = [] ∧
    _time_seq this = [] ∧ is_open env (obj_dir this +:+ "metadata.out") = true.
Proof.
  unfold lifetime.
  destruct (deliver_spec env events this) as (e1 & this1 & H1 & Hc & Ht & Hd & He).
  destruct (offload_data_delete env this1) as [e2 r] eqn:H2.
  rewrite (pbind_eq _ (λ x, offload_data_delete env x) _ _ _ _ H1 H2). simpl.
  pose proof (delete_undefined_iff env this1) as Hiff.
  rewrite H2, Hc, Ht, Hd, He in Hiff. exact Hiff.
Qed.

(** ** The destructor and the file system *)

Lemma prefix_app dir s : String.prefix dir (dir +:+ s) = true.
Proof.
  induction dir as [|c dir IH]; simpl; [by destruct s|].
  destruct (ascii_dec c c); [done|congruence].
Qed.

Lemma writes_under_pose env dir idx it :
  Forall (writes_under dir) (pose_effects env dir idx it).
Proof.
  unfold pose_effects. destruct (is_open _ _); [|constructor].
  constructor; [|constructor]. apply prefix_app.
Qed.

Lemma write_all_writes_under env n container : ∀ this,
  Forall (writes_under (obj_dir this)) (write_all env n this container).1.
Proof.
  induction container as [|it rest IH]; intros this; simpl; [constructor|].
  destruct (stbi_write_png env (image_file (obj_dir this) (img_idx this)) (image it))
    eqn:Hpng.
  - destruct (write_one_ok env n this it Hpng) as (this1 & H1 & Hd & _).
    specialize (IH this1). rewrite Hd in IH.
    destruct (write_all env n this1 rest) as [effs r] eqn:Hr.
    rewrite (pbind_eq _ _ _ _ _ _ H1 Hr). simpl.
    constructor; [apply prefix_app|]. apply Forall_app. split; [|done].
    apply Forall_app. split; [apply writes_under_pose|by repeat constructor].
  - rewrite (write_one_fail env n this it Hpng). simpl. by repeat constructor.
Qed.

Lemma writeDataToDisk_no_dir_op env this container :
  Forall (λ e, is_dir_op e = false) (writeDataToDisk env this container).1.
Proof.
  destruct (write_all_spec env (Z.of_nat (length container)) container (set_img_idx 0 this))
    as (effs & r & Hw & Hf & _).
  rewrite (writeDataToDisk_eq _ _ _ _ _ Hw).
  assert (Forall (λ e, is_dir_op e = false) (disk_prologue ++ effs)) as Hpre.
  { apply Forall_app. split; [by repeat constructor|done]. }
  destruct r as [this'| |]; simpl; [|done..].
  do 2 (constructor; [done|]). apply Forall_app. split; [done|].
  constructor; [done|]. unfold writeMetadata.
  repeat case_match; simpl; by repeat constructor.
Qed.

Lemma writeDataToDisk_writes_under env this container :
  Forall (writes_under (obj_dir this)) (writeDataToDisk env this container).1.
Proof.
  pose proof (write_all_writes_under env (Z.of_nat (length container)) container
                (set_img_idx 0 this)) as Hu. simpl in Hu.
  destruct (write_all_spec env (Z.of_nat (length container)) container (set_img_idx 0 this))
    as (effs & r & Hw & _ & Hpost).
  rewrite Hw in Hu. simpl in Hu.
  rewrite (writeDataToDisk_eq _ _ _ _ _ Hw).
  assert (Forall (writes_under (obj_dir this)) (disk_prologue ++ effs)) as Hpre.
  { apply Forall_app. split; [by repeat constructor|done]. }
  destruct r as [this'| |]; simpl; [|done..].
  destruct Hpost as (Hd & _). simpl in Hd.
  do 2 (constructor; [done|]). apply Forall_app. split; [done|].
  constructor; [done|]. unfold writeMetadata. rewrite Hd.
  repeat case_match; simpl; repeat constructor; apply prefix_app.
Qed.

(** X9.  With offloading enabled the first two effects of the destructor
    are [remove_all] and [create_directories] on the output directory;
    nothing after them removes or creates a directory, and every file
    written after them has a name that starts with the output directory.
    With offloading disabled the destructor does nothing at all. *)
Theorem destructor_filesystem env this :
  (enable_offload this = true →
     ∃ rest,
       (offload_data_delete env this).1 =
         RemoveAll (obj_dir this) :: CreateDirectories (obj_dir this) :: rest ∧
       Forall (λ e, is_dir_op e = false) rest ∧
       Forall (writes_under (obj_dir this)) rest) ∧
  (enable_offload this = false →
     offload_data_delete env this = ([], Finished this)).
Proof.
  unfold offload_data_delete. split; intros He; rewrite He; [|done].
  rewrite pbind_tell. cbn [fst app].
  exists (writeDataToDisk env this (_offload_data_container this)).1.
  split; [done|]. split; [apply writeDataToDisk_no_dir_op|].
  apply writeDataToDisk_writes_under.
Qed.

Lemma destructor_filesystem_witness :
  enable_offload (sample_plugin true [sample_pose 5%Z 7]) = true ∧
  ∃ rest,
    (offload_data_delete (sample_env (λ _, true)) (sample_plugin true [sample_pose 5%Z 7])).1
      = RemoveAll "out/" :: CreateDirectories "out/" :: rest ∧
    Forall (λ e, is_dir_op e = false) rest ∧
    Forall (writes_under "out/") rest ∧
    png_writes rest = [("out/0.png", 7)].
Proof.
  split; [reflexivity|].
  destruct (destructor_filesystem (sample_env (λ _, true))
              (sample_plugin true [sample_pose 5%Z 7])) as [H _].
  destruct (H eq_refl) as (rest & Hr & Hd & Hu).
  exists rest. split; [exact Hr|]. split; [exact Hd|]. split; [exact Hu|].
  vm_compute in Hr. injection Hr as <-. reflexivity.
Defined.

(** ** File names *)

Lemma list_ascii_app s1 s2 :
  String.list_ascii_of_string (s1 +:+ s2) = String.list_ascii_of_string s1 ++ String.list_ascii_of_string s2.
Proof. induction s1 as [|c s1 IH]; simpl; [done|]. by rewrite IH. Qed.

Lemma list_ascii_inj s1 s2 :
  String.list_ascii_of_string s1 = String.list_ascii_of_string s2 → s1 = s2.
Proof.
  intros H. rewrite <- (String.string_of_list_ascii_of_string s1),
    <- (String.string_of_list_ascii_of_string s2). by rewrite H.
Qed.

Lemma string_app_inj_suffix s1 s2 t1 t2 :
  length (String.list_ascii_of_string t1) = length (String.list_ascii_of_string t2) →
  s1 +:+ t1 = s2 +:+ t2 → s1 = s2 ∧ t1 = t2.
Proof.
  intros Hl H. apply (f_equal String.list_ascii_of_string) in H.
  rewrite !list_ascii_app in H. apply app_inj_2 in H as [H1 H2]; [|done].
  split; by apply list_ascii_inj.
Qed.

(** X15.  The files of one run never collide: images (and poses) of
    different indices have different names, no image shares its name with
    a pose, and neither shares it with the metadata file, whatever the
    output directory. *)
Theorem output_files_distinct dir (i j : Z) :
  (image_file dir i = image_file dir j → i = j) ∧
  (pose_file dir i = pose_file dir j → i = j) ∧
  image_file dir i ≠ pose_file dir j ∧
  image_file dir i ≠ dir +:+ "metadata.out" ∧
  pose_file dir i ≠ dir +:+ "metadata.out".
Proof.
  unfold image_file, pose_file. repeat split.
  - intros H. apply String.app_inj in H.
    apply string_app_inj_suffix in H as [H _]; [|done]. by apply (inj pretty).
  - intros H. apply String.app_inj in H.
    apply string_app_inj_suffix in H as [H _]; [|done]. by apply (inj pretty).
  - intros H. apply String.app_inj in H.
    by apply string_app_inj_suffix in H as [_ H].
  - intros H. apply String.app_inj in H.
    change "metadata.out" with ("metadata" +:+ ".out") in H.
    by apply string_app_inj_suffix in H as [_ H].
  - intros H. apply String.app_inj in H.
    change "metadata.out" with ("metadata" +:+ ".out") in H.
    by apply string_app_inj_suffix in H as [_ H].
Qed.

(** * Further properties of the orchestrator *)

Lemma stopped_app t1 t2 : stopped (t1 ++ t2) = stopped t1 ++ stopped t2.
Proof. induction t1 as [|[] t1 IH]; simpl; by rewrite ?IH. Qed.

Lemma factories_called_app t1 t2 :
  factories_called (t1 ++ t2) = factories_called t1 ++ factories_called t2.
Proof. induction t1 as [|[] t1 IH]; simpl; by rewrite ?IH. Qed.

Lemma stopped_quiet evs : Forall quiet evs → stopped evs = [].
Proof. induction 1 as [|e evs He _ IH]; [done|]. by destruct e. Qed.

Lemma factories_called_quiet evs : Forall quiet evs → factories_called evs = [].
Proof. induction 1 as [|e evs He _ IH]; [done|]. by destruct e. Qed.

Lemma stopped_starts l : stopped (EvStart <$> l) = [].
Proof. by induction l. Qed.

Lemma stopped_dlopens l : stopped (EvDlopen <$> l) = [].
Proof. by induction l. Qed.

Lemma stopped_stops l : stopped (EvStop <$> l) = l.
Proof. induction l; [done|]. simpl. by f_equal. Qed.

Lemma factories_called_starts l : factories_called (EvStart <$> l) = [].
Proof. by induction l. Qed.

Lemma factories_called_dlopens l : factories_called (EvDlopen <$> l) = [].
Proof. by induction l. Qed.

Lemma started_dlopens l : started (EvDlopen <$> l) = [].
Proof. by induction l. Qed.

(** Instances built by one pass over a list of factories: one per
    factory, in order, at fresh addresses, none started or stopped. *)
Lemma make_plugins_fresh fs : ∀ (pb0 : phonebook) w ps pb1 w',
  make_plugins fs pb0 w = Ret (ps, pb1) w' →
  ∃ k evs, w' = adv k evs w ∧
    created evs = ps ∧ started evs = [] ∧ stopped evs = [] ∧ dlopened evs = [] ∧
    factories_called evs = pf_name <$> fs ∧
    Forall (λ p, next_addr w ≤ p < next_addr w + k) ps.
Proof.
  induction fs as [|f fs IH]; intros pb0 w ps pb1 w'; simpl.
  - intros [= <- <- <-]. exists 0, []. by rewrite adv_0_nil.
  - unfold bind. pose proof (call_factory_spec f pb0 w) as Hc. unfold wp in Hc.
    destruct (call_factory f pb0 w) as [[p pbx] w1|]; [|done].
    destruct Hc as (Hp & _ & k & evs & -> & Hq). simpl in Hp. subst p. simpl.
    destruct (make_plugins fs pbx _) as [[ps' pb2] w2|] eqn:E; [|done].
    intros [= <- <- <-].
    destruct (IH _ _ _ _ _ E) as (k2 & evs2 & -> & Hc2 & Hs2 & Ht2 & Hd2 & Hf2 & Hfr).
    eexists _, _. rewrite adv_adv. split; [done|]. simpl.
    rewrite created_app, started_app, stopped_app, dlopened_app, factories_called_app.
    rewrite created_quiet, started_quiet, stopped_quiet, dlopened_quiet,
      factories_called_quiet by done.
    simpl. rewrite Hc2, Hs2, Ht2, Hd2, Hf2. repeat split; try done.
    constructor; [lia|]. eapply Forall_impl; [exact Hfr|]. simpl. intros; lia.
Qed.

(** What a returning vector load has done. *)
Lemma load_so_vec_fresh so_paths this w this' w' :
  load_so_vec so_paths this w = Ret this' w' →
  ∃ new_libs fevs k,
    w' = adv k ((EvDlopen <$> so_paths) ++ fevs ++ (EvStart <$> plugins this')) w ∧
    lib_path <$> new_libs = so_paths ∧
    libs this' = libs this ++ new_libs ∧
    plugins this' = plugins this ++ created fevs ∧
    terminate this' = terminate this ∧
    started fevs = [] ∧ stopped fevs = [] ∧ dlopened fevs = [] ∧
    Forall2 (λ lib f, ∃ fac, lib_symbols lib !! "this_plugin_factory" = Some fac ∧
                             pf_name fac = f)
            (libs this') (factories_called fevs) ∧
    length (created fevs) = length (libs this) + length so_paths ∧
    Forall (λ p, next_addr w ≤ p < next_addr w + k) (created fevs).
Proof.
  unfold load_so_vec, bind.
  pose proof (mapM_create_spec so_paths w) as H1. unfold wp in H1.
  destruct (mapM dynamic_lib_create so_paths w) as [ls w1|]; [|done].
  destruct H1 as [Hls ->].
  match goal with |- context [mapM ?f ?l ?w] =>
    pose proof (mapM_get_spec "this_plugin_factory" l w) as H2; unfold wp in H2;
    destruct (mapM f l w) as [fs w2|]; [|done] end.
  destruct H2 as [-> Hfs].
  match goal with |- context [make_plugins ?fs ?p ?w] =>
    destruct (make_plugins fs p w) as [[ps pb1] w3|] eqn:E; [|done] end.
  destruct (make_plugins_fresh _ _ _ _ _ _ E) as (k & evs & -> & Hc & Hs & Ht & Hd & Hf & Hfr).
  simpl. rewrite forM_start. unfold ret. intros [= <- <-]. simpl.
  exists ls, evs, k. rewrite !adv_adv, Hc. simpl. rewrite Nat.add_0_r.
  repeat split; try done.
  - rewrite Hf. clear -Hfs. induction Hfs as [|lib f ls' fs' Hl _ IH]; simpl.
    + constructor.
    + constructor; [by exists f|done].
  - rewrite <- Hc. transitivity (length (factories_called evs)).
    + clear. induction evs as [|[] evs IH]; simpl; by rewrite ?IH.
    + rewrite Hf, length_fmap. apply Forall2_length in Hfs. rewrite <- Hfs.
      by rewrite length_app, <- Hls, length_fmap.
  - simpl in Hfr. by rewrite Nat.add_0_r in Hfr.
Qed.

(** What a returning operation has done to the plugins. *)
Lemma do_op_fresh o this w this' w' :
  do_op o this w = Ret this' w' →
  ∃ k evs, w' = adv k evs w ∧
    plugins this' = plugins this ++ created evs ∧
    Forall (λ p, next_addr w ≤ p < next_addr w + k) (created evs) ∧
    (∀ p, p ∈ created evs → p ∈ started evs) ∧
    stopped evs = (if is_stop o then plugins this else []) ∧
    terminate this' = terminate this || is_stop o.
Proof.
  intros Ho. destruct o as [so_paths|so|f|]; simpl in Ho.
  - destruct (load_so_vec_fresh _ _ _ _ _ Ho)
      as (nl & fevs & k & -> & _ & _ & Hpl & Ht & Hs & Hst & Hd & _ & _ & Hfr).
    eexists _, _. split; [done|].
    rewrite !created_app, !started_app, !stopped_app.
    rewrite created_dlopens, created_starts, started_dlopens, started_starts, Hs.
    rewrite stopped_dlopens, stopped_starts, Hst, app_nil_r, orb_false_r. simpl.
    repeat split; try done.
    intros p Hp. rewrite Hpl. apply elem_of_app. by right.
  - pose proof (wp_Ret _ _ _ _ _ _ (load_so_spec so this w) Ho)
      as (_ & Ht & _ & Hpl & f & k & evs & Hq & ->).
    eexists _, _. split; [done|]. simpl.
    rewrite created_app, started_app, stopped_app.
    rewrite created_quiet, started_quiet, stopped_quiet by done. simpl.
    rewrite orb_false_r. repeat split; try done.
    constructor; [lia|constructor].
  - pose proof (wp_Ret _ _ _ _ _ _ (load_plugin_factory_spec f this w) Ho)
      as (_ & Ht & _ & Hpl & k & evs & Hq & ->).
    eexists _, _. split; [done|]. simpl.
    rewrite created_app, started_app, stopped_app.
    rewrite created_quiet, started_quiet, stopped_quiet by done. simpl.
    rewrite orb_false_r. repeat split; try done.
    constructor; [lia|constructor].
  - destruct (pb this !! "switchboard") as [sb|] eqn:Hsb.
    + rewrite (stop_eq _ _ _ Hsb) in Ho. injection Ho as <- <-.
      eexists _, _. split; [done|]. simpl.
      rewrite created_app, stopped_app, created_stops, stopped_stops. simpl.
      rewrite !app_nil_r, orb_true_r. repeat split; try done.
      intros p Hp. by apply elem_of_nil in Hp.
    + destruct (stop_died this w Hsb) as [why E]. by rewrite E in Ho.
Qed.

Lemma addrs_ok_do_op o this w this' w' :
  addrs_ok this w → do_op o this w = Ret this' w' → addrs_ok this' w'.
Proof.
  intros [Hlt Hst] Ho.
  destruct (do_op_fresh _ _ _ _ _ Ho) as (k & evs & -> & Hpl & Hfr & _ & Hs & _).
  unfold addrs_ok. simpl. rewrite Hpl, stopped_app, Hs. split.
  - apply Forall_app. split.
    + eapply Forall_impl; [exact Hlt|]. simpl. intros; lia.
    + eapply Forall_impl; [exact Hfr|]. simpl. intros; lia.
  - apply Forall_app. split.
    + eapply Forall_impl; [exact Hst|]. simpl. intros p Hp.
      apply elem_of_app. by left.
    + destruct (is_stop o); [|constructor].
      apply Forall_forall. intros p Hp. apply elem_of_app. by left.
Qed.

Lemma addrs_ok_run_ops ops : ∀ this w this' w',
  addrs_ok this w → run_ops ops this w = Ret this' w' → addrs_ok this' w'.
Proof.
  induction ops as [|o ops IH]; intros this w this' w' Hok; simpl.
  - by intros [= <- <-].
  - unfold bind. destruct (do_op o this w) as [this1 w1|] eqn:E; [|done].
    apply IH. by eapply addrs_ok_do_op.
Qed.

Lemma run_ops_app ops1 ops2 this w :
  run_ops (ops1 ++ ops2) this w =
    match run_ops ops1 this w with
    | Ret this1 w1 => run_ops ops2 this1 w1
    | Died w1 => Died w1
    end.
Proof.
  revert this w. induction ops1 as [|o ops1 IH]; intros this w; simpl; [done|].
  unfold bind. destruct (do_op o this w) as [this1 w1|]; [apply IH|done].
Qed.

(** A run of operations without [stop()]. *)
Lemma run_ops_no_stop ops : ∀ this w this' w',
  existsb is_stop ops = false →
  run_ops ops this w = Ret this' w' →
  ∃ k evs, w' = adv k evs w ∧
    plugins this' = plugins this ++ created evs ∧
    Forall (λ p, (next_addr w ≤ p)%nat) (created evs) ∧
    (∀ p, p ∈ created evs → p ∈ started evs) ∧
    stopped evs = [] ∧
    terminate this' = terminate this.
Proof.
  induction ops as [|o ops IH]; intros this w this' w' Hns; simpl.
  - intros [= <- <-]. exists 0, []. rewrite adv_0_nil, app_nil_r.
    repeat split; done.
  - simpl in Hns. apply orb_false_iff in Hns as [Ho Hns].
    unfold bind. destruct (do_op o this w) as [this1 w1|] eqn:E; [|done]. intros Hr.
    destruct (do_op_fresh _ _ _ _ _ E) as (k1 & e1 & -> & Hp1 & Hf1 & Hs1 & Ht1 & Hx1).
    destruct (IH _ _ _ _ Hns Hr) as (k2 & e2 & -> & Hp2 & Hf2 & Hs2 & Ht2 & Hx2).
    rewrite Ho in *. eexists _, _. rewrite adv_adv. split; [done|].
    rewrite created_app, started_app, stopped_app, Ht1, Ht2, Hp2, Hp1, Hx2, Hx1.
    rewrite orb_false_r, app_assoc. repeat split; try done.
    + apply Forall_app. split.
      * eapply Forall_impl; [exact Hf1|]. simpl. intros; lia.
      * eapply Forall_impl; [exact Hf2|]. simpl. intros; lia.
    + intros p Hp. apply elem_of_app in Hp as [Hp|Hp]; apply elem_of_app; auto.
Qed.

(** ** Loads that end the process *)

Lemma silent_app e1 e2 : silent e1 → silent e2 → silent (e1 ++ e2).
Proof. intros [H1 H2] [H3 H4]. split; by rewrite ?started_app, ?stopped_app, ?H1, ?H2. Qed.

Lemma silent_quiet evs : Forall quiet evs → silent evs.
Proof. split; [by apply started_quiet|by apply stopped_quiet]. Qed.

Lemma silent_dlopens l : silent (EvDlopen <$> l).
Proof. split; [apply started_dlopens|apply stopped_dlopens]. Qed.

Lemma mapM_create_died so_paths : ∀ w w',
  mapM dynamic_lib_create so_paths w = Died w' → grows silent w w'.
Proof.
  induction so_paths as [|p ps IH]; intros w w'; simpl; [done|].
  unfold bind. pose proof (dynamic_lib_create_spec p w) as H1. unfold wp in H1.
  destruct (dynamic_lib_create p w) as [lib w1|].
  - destruct H1 as (_ & _ & ->).
    destruct (mapM dynamic_lib_create ps _) as [ls w2|] eqn:E; [done|].
    intros [= <-]. destruct (IH _ _ E) as (k & evs & -> & Hs).
    eexists _, _. rewrite adv_adv. split; [done|].
    apply (silent_app [EvDlopen p]); [done|exact Hs].
  - destruct H1 as (_ & why & ->). intros [= <-]. by eexists _, _.
Qed.

Lemma mapM_get_died sym ls : ∀ w w',
  mapM (λ lib, dynamic_lib_get lib sym) ls w = Died w' → grows silent w w'.
Proof.
  induction ls as [|lib ls IH]; intros w w'; simpl; [done|].
  unfold bind. pose proof (dynamic_lib_get_spec lib sym w) as H1. unfold wp in H1.
  destruct (dynamic_lib_get lib sym w) as [f w1|].
  - destruct H1 as [_ ->].
    destruct (mapM _ ls w) as [fs w2|] eqn:E; [done|].
    intros [= <-]. by apply IH.
  - destruct H1 as (_ & why & ->). intros [= <-]. by eexists _, _.
Qed.

Lemma call_factory_died f (pb0 : phonebook) w w' :
  call_factory f pb0 w = Died w' → grows silent w w'.
Proof.
  intros H. pose proof (wp_Died _ _ _ _ _ (call_factory_spec f pb0 w) H)
    as (k & evs & -> & Hq).
  eexists _, _. split; [done|]. apply (silent_app [_]); [done|by apply silent_quiet].
Qed.

Lemma make_plugins_died fs : ∀ (pb0 : phonebook) w w',
  make_plugins fs pb0 w = Died w' → grows silent w w'.
Proof.
  induction fs as [|f fs IH]; intros pb0 w w'; simpl; [done|].
  unfold bind. destruct (call_factory f pb0 w) as [[p pbx] w1|] eqn:E1.
  - pose proof (wp_Ret _ _ _ _ _ _ (call_factory_spec f pb0 w) E1)
      as (_ & _ & k & evs & -> & Hq). simpl.
    destruct (make_plugins fs pbx _) as [r w2|] eqn:E2; [done|].
    intros [= <-]. destruct (IH _ _ _ E2) as (k2 & evs2 & -> & Hs).
    eexists _, _. rewrite adv_adv. split; [done|].
    apply silent_app; [|done]. apply (silent_app [_]); [done|by apply silent_quiet].
  - intros [= <-]. by eapply call_factory_died.
Qed.

Lemma load_plugin_factory_died f this w w' :
  load_plugin_factory f this w = Died w' → grows silent w w'.
Proof.
  unfold load_plugin_factory, bind.
  destruct (call_factory f (pb this) w) as [[p pbx] w1|] eqn:E1.
  - simpl. rewrite last_snoc. done.
  - intros [= <-]. by eapply call_factory_died.
Qed.

(** X10.  A load that ends the process has not called [start()] (or
    [stop()]) on any plugin: every point at which a load can fail, opening
    a module, resolving its factory, or constructing a plugin, comes before
    the first [start()] of that call.  For the vector overload this means
    that one bad path among many leaves every plugin of the call, and every
    plugin loaded earlier, not started again. *)
Theorem failed_load_starts_nothing o this w w' :
  is_stop o = false →
  do_op o this w = Died w' →
  ∃ k evs, w' = adv k evs w ∧ started evs = [] ∧ stopped evs = [].
Proof.
  intros Ho Hd. cut (grows silent w w').
  { intros (k & evs & -> & Hs & Ht). by exists k, evs. }
  destruct o as [so_paths|so|f|]; [| | |done]; simpl in Hd.
  - unfold load_so_vec, bind in Hd.
    destruct (mapM dynamic_lib_create so_paths w) as [ls w1|] eqn:E1.
    2: { injection Hd as <-. by eapply mapM_create_died. }
    pose proof (wp_Ret _ _ _ _ _ _ (mapM_create_spec so_paths w) E1) as [_ ->].
    destruct (mapM _ (libs this ++ ls) _) as [fs w2|] eqn:E2.
    2: { injection Hd as <-. apply mapM_get_died in E2.
         eapply grows_trans; [|exact E2|apply silent_app].
         eexists _, _. split; [done|]. apply silent_dlopens. }
    pose proof (wp_Ret _ _ _ _ _ _ (mapM_get_spec _ _ _) E2) as [-> _].
    destruct (make_plugins fs (pb this) _) as [r w3|] eqn:E3.
    2: { injection Hd as <-. apply make_plugins_died in E3.
         eapply grows_trans; [|exact E3|apply silent_app].
         eexists _, _. split; [done|]. apply silent_dlopens. }
    simpl in Hd. by rewrite forM_start in Hd.
  - unfold load_so, bind in Hd.
    pose proof (dynamic_lib_create_spec so w) as H1. unfold wp in H1.
    destruct (dynamic_lib_create so w) as [lib w1|].
    2: { destruct H1 as (_ & why & ->). injection Hd as <-. by eexists _, _. }
    destruct H1 as (_ & _ & ->).
    pose proof (dynamic_lib_get_spec lib "this_plugin_factory"
                  (adv 0 [EvDlopen so] w)) as H2. unfold wp in H2.
    destruct (dynamic_lib_get lib "this_plugin_factory" _) as [f w2|].
    2: { destruct H2 as (_ & why & ->). injection Hd as <-.
         rewrite adv_adv. by eexists _, _. }
    destruct H2 as [_ ->].
    destruct (load_plugin_factory f this _) as [this1 w3|] eqn:E3; [done|].
    injection Hd as <-. apply load_plugin_factory_died in E3.
    eapply grows_trans; [|exact E3|apply silent_app].
    by eexists _, _.
  - by eapply load_plugin_factory_died.
Qed.

Lemma failed_load_starts_nothing_witness :
  do_op (OpLoadSoVec ["a.so"; "missing.so"]) sample_run_1.1 sample_run_1.2
    = Died sample_dead ∧
  ∃ k evs, sample_dead = adv k evs sample_run_1.2 ∧ started evs = [] ∧ stopped evs = [].
Proof.
  assert (do_op (OpLoadSoVec ["a.so"; "missing.so"]) sample_run_1.1 sample_run_1.2
            = Died sample_dead) as H by (vm_compute; reflexivity).
  split; [exact H|].
  exact (failed_load_starts_nothing (OpLoadSoVec ["a.so"; "missing.so"]) _ _ _ eq_refl H).
Defined.

(** ** Loads that return *)

(** X11.  A returning call of the vector overload first opens the given
    paths in order, then invokes the factory of every handle in [libs],
    those of earlier loads included, in the order of [libs], and last
    calls [start()] on every plugin it holds, those started before
    included: it adds one new instance per handle in [libs], not one per
    path. *)
Theorem vector_load_rebuilds_and_restarts so_paths this w this' w' :
  load_so_vec so_paths this w = Ret this' w' →
  ∃ fevs k,
    w' = adv k ((EvDlopen <$> so_paths) ++ fevs ++ (EvStart <$> plugins this')) w ∧
    dlopened fevs = [] ∧ started fevs = [] ∧ stopped fevs = [] ∧
    lib_path <$> libs this' = (lib_path <$> libs this) ++ so_paths ∧
    Forall2 (λ lib f, ∃ fac, lib_symbols lib !! "this_plugin_factory" = Some fac ∧
                             pf_name fac = f)
            (libs this') (factories_called fevs) ∧
    plugins this' = plugins this ++ created fevs ∧
    length (created fevs) = length (libs this) + length so_paths.
Proof.
  intros H. destruct (load_so_vec_fresh _ _ _ _ _ H)
    as (nl & fevs & k & Hw & Hnl & Hl & Hpl & _ & Hs & Hst & Hd & Hf & Hlen & _).
  exists fevs, k. split; [exact Hw|]. split; [exact Hd|]. split; [exact Hs|].
  split; [exact Hst|]. split; [by rewrite Hl, fmap_app, Hnl|].
  split; [exact Hf|]. split; [exact Hpl|exact Hlen].
Qed.

Lemma vector_load_rebuilds_and_restarts_witness :
  load_so_vec ["b.so"] sample_run_4.1.2 sample_run_4.2
    = Ret sample_run_vec.1 sample_run_vec.2 ∧
  lib_path <$> libs sample_run_4.1.2 = ["a.so"] ∧
  plugins sample_run_4.1.2 = [5] ∧
  ∃ fevs k,
    sample_run_vec.2 =
      adv k ((EvDlopen <$> ["b.so"]) ++ fevs ++ (EvStart <$> plugins sample_run_vec.1))
        sample_run_4.2 ∧
    plugins sample_run_vec.1 = [5] ++ created fevs ∧
    length (created fevs) = 2.
Proof.
  assert (load_so_vec ["b.so"] sample_run_4.1.2 sample_run_4.2
            = Ret sample_run_vec.1 sample_run_vec.2) as H by (vm_compute; reflexivity).
  split; [exact H|]. split; [reflexivity|]. split; [reflexivity|].
  destruct (vector_load_rebuilds_and_restarts _ _ _ _ _ H)
    as (fevs & k & Hw & _ & _ & _ & _ & _ & Hpl & Hlen).
  exists fevs, k. split; [exact Hw|]. split; [exact Hpl|exact Hlen].
Defined.

(** X12.  In a run that uses only the single-path [load_so] and
    [load_plugin_factory] (and [stop()]), every plugin the orchestrator
    holds has had [start()] called on it exactly once. *)
Theorem single_path_starts_once mc ops d this w :
  forallb (λ o, negb (is_vec o)) ops = true →
  boot mc ops (init_world d) = Ret this w →
  plugins this = created (trace w) ∧
  ∀ p, p ∈ plugins this → start_count p (trace w) = 1.
Proof.
  intros Hv Hb. split.
  - by pose proof (wp_Ret _ _ _ _ _ _ (boot_spec mc ops d) Hb) as (_ & _ & Hpl & _).
  - by eapply single_loads_start_once.
Qed.

Lemma single_path_starts_once_witness :
  forallb (λ o, negb (is_vec o)) sample_ops_1 = true ∧
  boot false sample_ops_1 (init_world sample_disk) = Ret sample_run_1.1 sample_run_1.2 ∧
  plugins sample_run_1.1 = [5; 6] ∧
  start_count 5 (trace sample_run_1.2) = 1 ∧ start_count 6 (trace sample_run_1.2) = 1.
Proof.
  assert (boot false sample_ops_1 (init_world sample_disk)
            = Ret sample_run_1.1 sample_run_1.2) as H by (vm_compute; reflexivity).
  split; [reflexivity|]. split; [exact H|]. split; [reflexivity|].
  destruct (single_path_starts_once false sample_ops_1 sample_disk _ _ eq_refl H)
    as [_ Hc].
  split; apply Hc.
  - by left.
  - right. by left.
Defined.

(** ** What no operation undoes *)

(** X13.  Across any interleaving of operations and polls of [wait()],
    the orchestrator never drops or reorders a plugin and never removes or
    rebinds a registry entry, and the terminate flag, once set, stays set;
    it is set only by a [stop()]. *)
Theorem orchestrator_only_grows s wt this w wt' this' w' :
  run_sched s wt this w = Ret (wt', this') w' →
  plugins this `prefix_of` plugins this' ∧
  pb this ⊆ pb this' ∧
  (terminate this = true → terminate this' = true) ∧
  (terminate this' = true → terminate this = true ∨ OpStop ∈ ops_of s).
Proof.
  intros H. pose proof (wp_Ret _ _ _ _ _ _ (run_sched_spec s wt this w) H)
    as [(Hsub & k & evs & _ & _ & Hpl & _) Ht]. simpl in *.
  split; [rewrite Hpl; by apply prefix_app_r|]. split; [done|].
  rewrite Ht. split.
  - by intros ->.
  - intros Ho. apply orb_true_iff in Ho as [Ho|Ho]; [by left|].
    right. by apply existsb_is_stop.
Qed.

Lemma orchestrator_only_grows_witness :
  run_sched sample_sched_3 sample_run_4.1.1 sample_run_4.1.2 sample_run_4.2
    = Ret (sample_run_5.1.1, sample_run_5.1.2) sample_run_5.2 ∧
  plugins sample_run_4.1.2 `prefix_of` plugins sample_run_5.1.2 ∧
  pb sample_run_4.1.2 ⊆ pb sample_run_5.1.2.
Proof.
  assert (run_sched sample_sched_3 sample_run_4.1.1 sample_run_4.1.2 sample_run_4.2
            = Ret (sample_run_5.1.1, sample_run_5.1.2) sample_run_5.2) as H
    by (vm_compute; reflexivity).
  split; [exact H|].
  destruct (orchestrator_only_grows _ _ _ _ _ _ _ H) as (Hp & Hs & _).
  split; [exact Hp|exact Hs].
Defined.

(** ** Plugins loaded after stop() *)

(** X14.  Nothing keeps a load from running after [stop()]: when the last
    [stop()] of a run is followed by loads, the plugins those loads build
    are started and are never stopped, and the destructor, which looks at
    the terminate flag only, returns normally all the same. *)
Theorem late_plugins_never_stopped mc d ops1 ops2 this w :
  boot mc (ops1 ++ OpStop :: ops2) (init_world d) = Ret this w →
  OpStop ∉ ops2 →
  ∃ t1 t2,
    trace w = t1 ++ EvTerminateStore true :: t2 ∧
    plugins this = created t1 ++ created t2 ∧
    (∀ p, p ∈ created t2 → p ∈ started t2 ∧ p ∉ stopped (trace w)) ∧
    terminate this = true ∧
    runtime_impl_delete this w = Ret tt w.
Proof.
  intros Hb Hns. unfold boot, bind in Hb. rewrite runtime_impl_new_eq in Hb.
  rewrite run_ops_app in Hb.
  destruct (run_ops ops1 _ _) as [this1 w1|] eqn:E1; [|done].
  pose proof (wp_Ret _ _ _ _ _ _ (run_ops_spec _ _ _) E1)
    as [(Hsub & k1 & e1 & Hw1 & _ & Hpl1 & _) _]. simpl in Hsub, Hpl1.
  assert (addrs_ok this1 w1) as [Hlt Hst].
  { eapply addrs_ok_run_ops; [|exact E1]. unfold addrs_ok. simpl.
    split; [constructor|]. destruct mc; constructor. }
  assert (pb this1 !! "switchboard" = Some 2) as Hsb.
  { eapply lookup_weaken; [|exact Hsub]. done. }
  simpl in Hb. unfold bind in Hb. rewrite (stop_eq _ _ _ Hsb) in Hb.
  assert (existsb is_stop ops2 = false) as Hns'.
  { apply not_true_is_false. by rewrite existsb_is_stop. }
  destruct (run_ops_no_stop _ _ _ _ _ Hns' Hb)
    as (k2 & e2 & -> & Hpl2 & Hfr & Hstd & Hstp & Ht).
  simpl in Hpl2, Hfr, Ht.
  exists (trace w1 ++ EvSwitchboardStop 2 :: (EvStop <$> plugins this1)), e2.
  assert (created (trace w1) = plugins this1) as Hc1.
  { rewrite Hw1, Hpl1. simpl. rewrite created_app.
    by assert (created (ctor_events mc) = []) as -> by by destruct mc. }
  split; [|split; [|split; [|split]]].
  - simpl. rewrite <- !app_assoc. simpl. by rewrite <- app_assoc.
  - rewrite created_app. simpl. by rewrite created_stops, app_nil_r, Hc1.
  - intros p Hp. split; [by apply Hstd|]. simpl.
    rewrite !stopped_app. simpl. rewrite stopped_app, stopped_stops, Hstp. simpl.
    rewrite !app_nil_r. intros Hin.
    rewrite Forall_forall in Hfr, Hlt, Hst. specialize (Hfr _ Hp).
    apply elem_of_app in Hin as [Hin|Hin].
    + specialize (Hlt _ (Hst _ Hin)). simpl in Hlt. lia.
    + specialize (Hlt _ Hin). simpl in Hlt. lia.
  - done.
  - unfold runtime_impl_delete. by rewrite Ht.
Qed.

Lemma late_plugins_never_stopped_witness :
  boot false (sample_ops_2 ++ OpStop :: sample_ops_late) (init_world sample_disk)
    = Ret sample_run_late.1 sample_run_late.2 ∧
  (OpStop ∉ sample_ops_late) ∧
  plugins sample_run_late.1 = [5; 6] ∧
  stopped (trace sample_run_late.2) = [5; 5] ∧
  started (trace sample_run_late.2) = [5; 6] ∧
  runtime_impl_delete sample_run_late.1 sample_run_late.2 = Ret tt sample_run_late.2.
Proof.
  assert (boot false (sample_ops_2 ++ OpStop :: sample_ops_late) (init_world sample_disk)
            = Ret sample_run_late.1 sample_run_late.2) as H by (vm_compute; reflexivity).
  assert (OpStop ∉ sample_ops_late) as Hn.
  { intros Hin. apply list_elem_of_singleton in Hin. discriminate. }
  split; [exact H|]. split; [exact Hn|].
  split; [reflexivity|]. split; [reflexivity|]. split; [reflexivity|].
  by destruct (late_plugins_never_stopped false sample_disk sample_ops_2 sample_ops_late
                 _ _ H Hn) as (_ & _ & _ & _ & _ & _ & Hd).
Defined.

(** ** stop() twice *)

(** X16.  [stop()] does not look at the terminate flag: called again on
    an orchestrator that was already stopped, it stops the switchboard and
    every plugin a second time and stores the flag again. *)
Theorem stop_repeats this w this1 w1 :
  stop this w = Ret this1 w1 →
  ∃ sb,
    w1 = adv 0 (EvSwitchboardStop sb :: (EvStop <$> plugins this)
                  ++ [EvTerminateStore true]) w ∧
    terminate this1 = true ∧
    stop this1 w1 =
      Ret this1 (adv 0 (EvSwitchboardStop sb :: (EvStop <$> plugins this)
                          ++ [EvTerminateStore true]) w1).
Proof.
  intros H. destruct (pb this !! "switchboard") as [sb|] eqn:Hsb.
  - rewrite (stop_eq _ _ _ Hsb) in H. injection H as <- <-.
    exists sb. split; [done|]. split; [done|]. by rewrite (stop_eq _ sb).
  - destruct (stop_died this w Hsb) as [why E]. by rewrite E in H.
Qed.

Lemma stop_repeats_witness :
  ∃ this1 w1 sb,
    stop sample_run_4.1.2 sample_run_4.2 = Ret this1 w1 ∧
    stop this1 w1 =
      Ret this1 (adv 0 (EvSwitchboardStop sb :: (EvStop <$> plugins sample_run_4.1.2)
                          ++ [EvTerminateStore true]) w1).
Proof.
  assert (pb sample_run_4.1.2 !! "switchboard" = Some 2) as Hsb by reflexivity.
  pose proof (stop_eq _ _ sample_run_4.2 Hsb) as H.
  destruct (stop_repeats _ _ _ _ H) as (sb & _ & _ & H2).
  eexists _, _, sb. split; [exact H|exact H2].
Defined.

(** * Properties of the offload_data plugin *)

(** ** A failing image *)

Lemma writes_before_weaken dir idx i e :
  writes_before dir (idx + 1) i e → writes_before dir idx (S i) e.
Proof.
  destruct e as [| | | |file c|]; simpl; try done.
  intros (j & Hj & H). exists (S j). split; [lia|].
  replace (idx + Z.of_nat (S j))%Z with (idx + 1 + Z.of_nat j)%Z by lia. done.
Qed.

Lemma write_all_first_failure env n container : ∀ this i it,
  container !! i = Some it →
  (∀ j jt, j < i → container !! j = Some jt →
     stbi_write_png env (image_file (obj_dir this) (img_idx this + Z.of_nat j))
       (image jt) = true) →
  stbi_write_png env (image_file (obj_dir this) (img_idx this + Z.of_nat i))
    (image it) = false →
  ∃ effs,
    write_all env n this container
      = (effs ++ [Report "Image create failed !!! "], OperationAborted) ∧
    png_writes effs = numbered_images (obj_dir this) (img_idx this) (take i container) ∧
    Forall (writes_before (obj_dir this) (img_idx this) i) effs.
Proof.
  induction container as [|x rest IH]; intros this i it Hi Hok Hfail; [done|].
  destruct i as [|i]; simpl in Hi.
  - injection Hi as ->. rewrite Z.add_0_r in Hfail. simpl.
    rewrite (write_one_fail env n this it Hfail). by exists [].
  - assert (stbi_write_png env (image_file (obj_dir this) (img_idx this)) (image x) = true)
      as Hx.
    { specialize (Hok 0 x). rewrite Z.add_0_r in Hok. apply Hok; [lia|done]. }
    destruct (write_one_ok env n this x Hx) as (this1 & H1 & Hd & Hidx & _).
    destruct (IH this1 i it Hi) as (effs & Hw & Hp & Hf).
    { intros j jt Hj Hjt. rewrite Hd, Hidx.
      replace (img_idx this + 1 + Z.of_nat j)%Z with (img_idx this + Z.of_nat (S j))%Z
        by lia. apply Hok; [lia|done]. }
    { rewrite Hd, Hidx.
      by replace (img_idx this + 1 + Z.of_nat i)%Z with (img_idx this + Z.of_nat (S i))%Z
        by lia. }
    simpl. eexists. split.
    + rewrite (pbind_eq _ _ _ _ _ _ H1 Hw). by rewrite app_assoc.
    + rewrite Hd, Hidx in Hp, Hf. split.
      * simpl. rewrite !png_writes_app, png_writes_pose. simpl. by rewrite Hp.
      * constructor.
        { exists 0. split; [lia|]. left. by rewrite Z.add_0_r. }
        apply Forall_app. split.
        -- apply Forall_app. split; [|by repeat constructor].
           unfold pose_effects. destruct (is_open _ _); [|constructor].
           constructor; [|constructor]. exists 0. split; [lia|]. right.
           by rewrite Z.add_0_r.
        -- eapply Forall_impl; [exact Hf|]. intros e. apply writes_before_weaken.
Qed.

(** C4.  When the encoding of an image fails, the first such failure ends
    [writeDataToDisk] there: the images before it, and their poses, have
    been written; ["Image create failed !!! "] is reported through
    [ILLIXR::abort], and that is the last thing the plugin does: the pose
    of that image, the images after it and the metadata file are not
    written.  The operation of the plugin, and the destructor that ran it,
    end as aborted; the outcome is one of the plugin's operation, handed
    back to the caller. *)
Theorem image_encode_failure_aborts_operation env this container i it :
  (100 * Z.of_nat (length container) < 2 ^ 31)%Z →
  container !! i = Some it →
  (∀ j jt, j < i → container !! j = Some jt →
     stbi_write_png env (image_file (obj_dir this) (Z.of_nat j)) (image jt) = true) →
  stbi_write_png env (image_file (obj_dir this) (Z.of_nat i)) (image it) = false →
  ∃ effs,
    writeDataToDisk env this container
      = (disk_prologue ++ effs ++ [Report "Image create failed !!! "], OperationAborted) ∧
    png_writes effs = numbered_images (obj_dir this) 0 (take i container) ∧
    Forall (writes_before (obj_dir this) 0 i) effs ∧
    (enable_offload this = true → _offload_data_container this = container →
       (offload_data_delete env this).2 = OperationAborted ∧
       last (offload_data_delete env this).1 = Some (Report "Image create failed !!! ")).
Proof.
  intros _ Hi Hok Hfail.
  destruct (write_all_first_failure env (Z.of_nat (length container)) container
              (set_img_idx 0 this) i it Hi) as (effs & Hw & Hp & Hf); [done..|].
  exists effs. simpl in Hp, Hf.
  assert (writeDataToDisk env this container
            = (disk_prologue ++ effs ++ [Report "Image create failed !!! "],
               OperationAborted)) as Hd.
  { by rewrite (writeDataToDisk_eq _ _ _ _ _ Hw). }
  split; [exact Hd|]. split; [done|]. split; [done|].
  intros He Hc. unfold offload_data_delete. rewrite He, pbind_tell, Hc, Hd.
  split; [done|]. cbn [fst]. by rewrite !app_assoc, last_snoc.
Qed.

Lemma image_encode_failure_aborts_operation_witness :
  ∃ effs,
    writeDataToDisk (sample_env sample_png_ok) (sample_plugin true sample_received)
      sample_received
      = (disk_prologue ++ effs ++ [Report "Image create failed !!! "], OperationAborted) ∧
    png_writes effs = [("out/0.png", 7)] ∧
    (offload_data_delete (sample_env sample_png_ok)
       (sample_plugin true sample_received)).2 = OperationAborted.
Proof.
  destruct (image_encode_failure_aborts_operation (sample_env sample_png_ok)
              (sample_plugin true sample_received) sample_received 1 (sample_pose 3%Z 8))
    as (effs & Hw & Hp & _ & Hd).
  - vm_compute. reflexivity.
  - reflexivity.
  - intros [|j] jt Hj Hjt; [|lia]. injection Hjt as <-. reflexivity.
  - reflexivity.
  - exists effs. split; [exact Hw|]. split; [exact Hp|].
    by destruct (Hd eq_refl eq_refl) as [Ha _].
Defined.

(** ** The destructor *)

(** C9.  With offloading enabled the destructor calls [remove_all] on the
    output directory first and [create_directories] on it second, and
    these two are its only calls that remove or create a directory: every
    file it writes is written after the directory was removed and created
    again.  With offloading disabled the destructor has no effect at all
    and leaves the plugin as it is. *)
Theorem destructor_removes_output_dir_first env this :
  (enable_offload this = true →
     (offload_data_delete env this).1 !! 0 = Some (RemoveAll (obj_dir this)) ∧
     (offload_data_delete env this).1 !! 1 = Some (CreateDirectories (obj_dir this)) ∧
     (∀ i e, (offload_data_delete env this).1 !! i = Some e →
        is_dir_op e = true → (i < 2)%nat) ∧
     (∀ (i : nat) file c,
        (offload_data_delete env this).1 !! i = Some (WriteFile file c) →
        (2 ≤ i)%nat)) ∧
  (enable_offload this = false →
     offload_data_delete env this = ([], Finished this)).
Proof.
  unfold offload_data_delete. split; intros He; rewrite He; [|done].
  rewrite pbind_tell. cbn [fst app].
  pose proof (writeDataToDisk_no_dir_op env this (_offload_data_container this)) as Hf.
  split; [done|]. split; [done|]. split.
  - intros [|[|i]] e Hi Hd; [lia..|]. exfalso. simpl in Hi.
    rewrite Forall_forall in Hf.
    assert (e ∈ (writeDataToDisk env this (_offload_data_container this)).1) as Hin
      by (by eapply list_elem_of_lookup_2).
    specialize (Hf _ Hin). simpl in Hf. congruence.
  - intros [|[|i]] file c Hi; [done..|lia].
Qed.

Lemma destructor_removes_output_dir_first_witness :
  enable_offload (sample_plugin true sample_received) = true ∧
  (offload_data_delete (sample_env (λ _, true)) (sample_plugin true sample_received)).1 !! 0
    = Some (RemoveAll "out/") ∧
  (offload_data_delete (sample_env (λ _, true)) (sample_plugin true sample_received)).1 !! 1
    = Some (CreateDirectories "out/") ∧
  enable_offload (sample_plugin false sample_received) = false ∧
  offload_data_delete (sample_env (λ _, true)) (sample_plugin false sample_received)
    = ([], Finished (sample_plugin false sample_received)).
Proof.
  destruct (destructor_removes_output_dir_first (sample_env (λ _, true))
              (sample_plugin true sample_received)) as [H _].
  destruct (H eq_refl) as (H0 & H1 & _).
  destruct (destructor_removes_output_dir_first (sample_env (λ _, true))
              (sample_plugin false sample_received)) as [_ H'].
  split; [reflexivity|]. split; [exact H0|]. split; [exact H1|].
  split; [reflexivity|]. exact (H' eq_refl).
Defined.

(** ** writeMetadata on an empty sequence *)

(** C10, as stated, fails: it has both divisions of [writeMetadata]
    divide by zero for the empty sequence.  The divisor under the root is
    [size() - 1] in [size_t], which for the empty sequence is 2^64 - 1. *)
Lemma empty_divisors_not_both_zero :
  ¬ (mean_divisor [] = 0%Z ∧ stdev_divisor [] = 0%Z).
Proof. intros [_ H]. vm_compute in H. discriminate. Qed.

(** C10.  [writeMetadata] is well defined for a non-empty sequence: when
    the metadata file opens it writes the mean, max, min, stdev and count
    lines, the raw times and the times once more, rearranged, in
    descending order when they all fit in an [int]; max and min are the
    greatest and the least time.  For the empty sequence the mean is divided by
    zero, the divisor under the root wraps to 2^64 - 1 (it is zero for a
    sequence of one time), [max_element] and [min_element] return the end
    iterator, and, when the file opens, dereferencing it reads out of
    bounds.  The destructor of a plugin with offloading enabled and no
    pending time reaches that read exactly when no event was received and
    the file opens; after at least one event it does not. *)
Theorem writeMetadata_well_defined env dir :
  (∀ seq : list long,
     seq ≠ [] → is_open env (dir +:+ "metadata.out") = true →
     ∃ vmax vmin ordered,
       writeMetadata env dir seq =
         ([WriteFile (dir +:+ "metadata.out")
             (FText (metadata_head seq vmax vmin ++ times_toks ordered))],
          Finished tt) ∧
       vmax ∈ seq ∧ vmin ∈ seq ∧ (∀ x, x ∈ seq → (vmin ≤ x ≤ vmax)%Z) ∧
       ordered ≡ₚ seq ∧
       (Forall in_int seq → StronglySorted (λ a b, (b ≤ a)%Z) ordered) ∧
       mean_divisor seq ≠ 0%Z) ∧
  (mean_divisor [] = 0%Z ∧ stdev_divisor [] = (two64 - 1)%Z ∧
   (∀ x, stdev_divisor [x] = 0%Z) ∧
   max_element [] = length (@nil long) ∧ min_element [] = length (@nil long) ∧
   (is_open env (dir +:+ "metadata.out") = true →
      (writeMetadata env dir []).2 = Undefined)) ∧
  (∀ this,
     enable_offload this = true → _time_seq this = [] → obj_dir this = dir →
     ((offload_data_delete env this).2 = Undefined ↔
        _offload_data_container this = [] ∧
        is_open env (dir +:+ "metadata.out") = true)).
Proof.
  split; [|split].
  - intros seq Hne Hopen.
    destruct (max_element_spec seq Hne) as (vmax & Hmax & Hub & _).
    destruct (min_element_spec seq Hne) as (vmin & Hmin & Hlb & _).
    exists vmax, vmin, (sort int_gt seq). rewrite <- metadata_toks_head.
    split.
    { unfold writeMetadata. unfold long in *. by rewrite Hopen, Hmax, Hmin. }
    split; [by eapply list_elem_of_lookup_2|].
    split; [by eapply list_elem_of_lookup_2|].
    split; [intros x Hx; split; [by apply Hlb|by apply Hub]|].
    split; [apply sort_perm|]. split.
    + intros Hin. eapply (StronglySorted_ext int_ge _ in_int).
      * by rewrite sort_perm.
      * intros a b Ha Hb. unfold int_ge. by rewrite !to_int_in_int.
      * apply sort_sorted.
    + unfold mean_divisor. destruct seq; [done|simpl; lia].
  - split; [done|]. split; [done|]. split; [done|]. split; [done|]. split; [done|].
    intros Ho. unfold writeMetadata. by rewrite Ho.
  - intros this He Ht <-. rewrite delete_undefined_iff. split.
    + by intros (_ & Hc & _ & Ho).
    + by intros [Hc Ho].
Qed.

Lemma writeMetadata_well_defined_witness :
  (∃ vmax vmin ordered,
     writeMetadata (sample_env (λ _, true)) "out/" [5; 9; 3]%Z =
       ([WriteFile "out/metadata.out"
           (FText (metadata_head [5; 9; 3]%Z vmax vmin ++ times_toks ordered))],
        Finished tt) ∧
     ordered ≡ₚ [5; 9; 3]%Z ∧ StronglySorted (λ a b, (b ≤ a)%Z) ordered) ∧
  (writeMetadata (sample_env (λ _, true)) "out/" []).2 = Undefined ∧
  (offload_data_delete (sample_env (λ _, true)) (sample_plugin true [])).2 = Undefined.
Proof.
  destruct (writeMetadata_well_defined (sample_env (λ _, true)) "out/")
    as (H1 & (_ & _ & _ & _ & _ & H2) & H3).
  split; [|split].
  - destruct (H1 [5; 9; 3]%Z) as (vmax & vmin & ordered & Hw & _ & _ & _ & Hp & Hs & _);
      [done|reflexivity|].
    exists vmax, vmin, ordered. split; [exact Hw|]. split; [exact Hp|].
    apply Hs. repeat constructor; unfold in_int; lia.
  - by apply H2.
  - by apply (H3 (sample_plugin true [])).
Defined.
